(** * CustomRedirector: the background script (src/background.js)

    A shallow embedding of the three parts of the background script
    - [matchesPattern], the wildcard pattern matcher,
    - the [chrome.runtime.onInstalled] listener,
    - the [chrome.webNavigation.onBeforeNavigate] listener,
    together with the fragment of the JavaScript [RegExp] engine that
    [matchesPattern] relies on, and the properties of the rule engine. *)

From Stdlib Require Import List NArith ZArith Bool Ascii String Lia.
Import ListNotations.

(** ** JavaScript strings

    A JavaScript string is a sequence of UTF-16 code units.  Code units are
    kept as [N]; nothing below depends on the bound 0xFFFF. *)

Definition codeunit := N.
Definition jsstring := list codeunit.

Definition cu (a : ascii) : codeunit := N_of_ascii a.
Arguments cu a%_char.

(** A string literal of the development, as a JavaScript string. *)
Definition js (s : string) : jsstring := map cu (list_ascii_of_string s).
Arguments js s%_string.

Definition jsstring_eqb (s t : jsstring) : bool :=
  if list_eq_dec N.eq_dec s t then true else false.

(** [s.endsWith(suffix)] *)
Definition endsWith (s suffix : jsstring) : bool :=
  (List.length suffix <=? List.length s)%nat
  && jsstring_eqb (skipn (List.length s - List.length suffix) s) suffix.

Local Open Scope N_scope.

(** ASCII code units, and upper-casing of the ASCII letters. *)
Definition isAscii (c : codeunit) : bool := c <? 128.

Definition asciiUpper (c : codeunit) : codeunit :=
  if (cu "a" <=? c) && (c <=? cu "z") then c - 32 else c.

(** Equality of two strings up to the case of ASCII letters only. *)
Fixpoint asciiCaseEqb (s t : jsstring) : bool :=
  match s, t with
  | [], [] => true
  | c :: s', d :: t' => (asciiUpper c =? asciiUpper d) && asciiCaseEqb s' t'
  | _, _ => false
  end.

(** ** Exceptions *)

Inductive error := SyntaxError | TypeError.

Inductive result (A : Type) : Type :=
| Ok (a : A)
| Throw (e : error).
Arguments Ok {A} a.
Arguments Throw {A} e.

Definition rbind {A B} (r : result A) (k : A -> result B) : result B :=
  match r with
  | Ok a => k a
  | Throw e => Throw e
  end.

(** [try { body } catch (e) { handler e }] *)
Definition try_catch {A} (body : result A) (handler : error -> result A)
  : result A :=
  match body with
  | Ok a => Ok a
  | Throw e => handler e
  end.

(** ** The regular expressions [matchesPattern] builds

    The engine is modelled on the fragment of the pattern grammar made of
    the assertions [^] and [$], the atoms [.], a pattern character and a
    backslash followed by a syntax character, and the greedy quantifiers
    [*], [+] and [?].  A source outside this fragment is refused like a
    malformed one; [regexSource_compiles] shows that [matchesPattern] never
    builds one. *)

Inductive Atom :=
| PatternCharacter (c : codeunit)
| Dot.

Inductive Quantifier := Once | Star | Plus | Optional.

Inductive Term :=
| AssertStart
| AssertEnd
| Quantified (a : Atom) (q : Quantifier).

Record RegExp := mkRegExp { terms : list Term; ignoreCase : bool }.

(** SyntaxCharacter :: one of [^ $ \ . * + ? ( ) [ ] { } |] *)
Definition syntaxCharacters : jsstring := js "^$\.*+?()[]{}|".

Definition isSyntaxCharacter (c : codeunit) : bool :=
  existsb (N.eqb c) syntaxCharacters.

Definition quantifierOf (c : codeunit) : option Quantifier :=
  if c =? cu "*" then Some Star
  else if c =? cu "+" then Some Plus
  else if c =? cu "?" then Some Optional
  else None.

(** The parser reads the source from left to right; [acc] holds the terms
    read so far, last one first.  A quantifier applies to the atom just
    read and is refused when there is none. *)
Fixpoint parseTerms (acc : list Term) (src : jsstring) : result (list Term) :=
  match src with
  | [] => Ok (rev acc)
  | c :: rest =>
    match quantifierOf c with
    | Some q =>
      match acc with
      | Quantified a Once :: acc' => parseTerms (Quantified a q :: acc') rest
      | _ => Throw SyntaxError
      end
    | None =>
      if c =? cu "^" then parseTerms (AssertStart :: acc) rest
      else if c =? cu "$" then parseTerms (AssertEnd :: acc) rest
      else if c =? cu "." then parseTerms (Quantified Dot Once :: acc) rest
      else if c =? cu "\" then
        match rest with
        | d :: rest' =>
          if isSyntaxCharacter d
          then parseTerms (Quantified (PatternCharacter d) Once :: acc) rest'
          else Throw SyntaxError
        | [] => Throw SyntaxError
        end
      else if isSyntaxCharacter c then Throw SyntaxError
      else parseTerms (Quantified (PatternCharacter c) Once :: acc) rest
    end
  end.

(** [new RegExp(source, flags)], for the flags [""] and ["i"]. *)
Definition RegExp_new (source flags : jsstring) : result RegExp :=
  if jsstring_eqb flags [] || jsstring_eqb flags (js "i") then
    rbind (parseTerms [] source)
          (fun ts => Ok (mkRegExp ts (jsstring_eqb flags (js "i"))))
  else Throw SyntaxError.

(** LineTerminator :: LF, CR, LS (U+2028), PS (U+2029): the code units
    that [.] does not match when the [s] flag is absent. *)
Definition isLineTerminator (c : codeunit) : bool :=
  (c =? 10) || (c =? 13) || (c =? 8232) || (c =? 8233).

(** ** The host: storage areas and tabs

    The script reaches the browser through [chrome.storage.local],
    [chrome.storage.sync] and [chrome.tabs.update].  A storage area holds
    the two keys the script uses; a read hands its callback the items of
    the keys asked for, or [undefined] when the read fails, or never calls
    it back when the read stalls. *)

Record Rule := mkRule {
  id : Z;
  pattern : jsstring;
  redirect : jsstring;
  enabled : bool
}.

Record Items := mkItems {
  useSync : option bool;
  redirectRules : option (list Rule)
}.

Inductive StorageArea := local | sync.

Inductive Key := useSyncKey | redirectRulesKey.

Inductive AreaStatus := Healthy | Failing | Stalled.

Record Area := mkArea { items : Items; status : AreaStatus }.

Record Host := mkHost { localArea : Area; syncArea : Area }.

Definition area (storage : StorageArea) (h : Host) : Area :=
  match storage with
  | local => localArea h
  | sync => syncArea h
  end.

(** What the script does to the browser, in the order it does it. *)
Inductive Effect :=
| StorageGet (storage : StorageArea) (key : Key)
| StorageSet (storage : StorageArea) (rules : list Rule)
| TabsUpdate (tabId : Z) (url : jsstring).

Inductive Completion := Returned | Uncaught (e : error).

Record Outcome := mkOutcome {
  completion : Completion;
  final : Host;
  trace : list Effect
}.

(** A piece of the script run from a state of the host.  The callbacks of
    the storage calls are the only code that follows these calls, so they
    are run as continuations. *)
Definition Action := Host -> Outcome.

Definition done : Action := fun h => mkOutcome Returned h [].

Definition throw (e : error) : Action := fun h => mkOutcome (Uncaught e) h [].

Definition emit (e : Effect) (o : Outcome) : Outcome :=
  mkOutcome (completion o) (final o) (e :: trace o).

(** The object a read of [[key]] yields from the items of an area. *)
Definition pick (key : Key) (it : Items) : Items :=
  match key with
  | useSyncKey => mkItems (useSync it) None
  | redirectRulesKey => mkItems None (redirectRules it)
  end.

(** [storage.get([key], callback)] *)
Definition storage_get (storage : StorageArea) (key : Key)
  (callback : option Items -> Action) : Action :=
  fun h =>
    match status (area storage h) with
    | Healthy =>
      emit (StorageGet storage key)
           (callback (Some (pick key (items (area storage h)))) h)
    | Failing => emit (StorageGet storage key) (callback None h)
    | Stalled => mkOutcome Returned h [StorageGet storage key]
    end.

Definition writeRules (rules : list Rule) (a : Area) : Area :=
  match status a with
  | Healthy => mkArea (mkItems (useSync (items a)) (Some rules)) Healthy
  | _ => a
  end.

(** [storage.set({ redirectRules: rules })] *)
Definition storage_set (storage : StorageArea) (rules : list Rule) : Action :=
  fun h =>
    mkOutcome Returned
      match storage with
      | local => mkHost (writeRules rules (localArea h)) (syncArea h)
      | sync => mkHost (localArea h) (writeRules rules (syncArea h))
      end
      [StorageSet storage rules].

(** [chrome.tabs.update(tabId, { url })] *)
Definition tabs_update (tabId : Z) (url : jsstring) : Action :=
  fun h => mkOutcome Returned h [TabsUpdate tabId url].

(** Reading a property of [result]: a TypeError when [result] is
    [undefined]. *)
Definition property (result : option Items) (k : Items -> Action) : Action :=
  match result with
  | Some it => k it
  | None => throw TypeError
  end.

(** An expression that may throw, inside a callback. *)
Definition eval {A} (r : result A) (k : A -> Action) : Action :=
  match r with
  | Ok a => k a
  | Throw e => throw e
  end.

(** Truthiness of [result.redirectRules]: [undefined] is falsy, an array
    is truthy, the empty one too. *)
Definition truthy (v : option (list Rule)) : bool :=
  match v with
  | Some _ => true
  | None => false
  end.

(** [v || other] *)
Definition orElse (v : option (list Rule)) (other : list Rule) : list Rule :=
  match v with
  | Some rules => rules
  | None => other
  end.

(** [v !== false] *)
Definition notFalse (v : option bool) : bool :=
  match v with
  | Some false => false
  | _ => true
  end.

(** The argument of the onBeforeNavigate listener. *)
Record Details := mkDetails { tabId : Z; url : jsstring; frameId : Z }.

(** The engine's upper-case table on the Latin-1 supplement (U+0080 to
    U+00FF) as Unicode has it, and the identity elsewhere; it serves to run
    the script on concrete strings. *)
Definition latin1UpperCase (ch : codeunit) : codeunit :=
  if ch =? 181 then 924
  else if ch =? 247 then ch
  else if ch =? 255 then 376
  else if (224 <=? ch) && (ch <=? 254) then ch - 32
  else ch.

(** A host whose two areas answer: the flag of the local area and the
    rule lists of the two areas. *)
Definition healthyHost (flag : option bool)
  (localRules syncRules : option (list Rule)) : Host :=
  mkHost (mkArea (mkItems flag localRules) Healthy)
         (mkArea (mkItems None syncRules) Healthy).

(** The rules of the scenarios A, B and C of the specification. *)
Definition scenarioA : list Rule :=
  [mkRule 1 (js "https://example.com/old") (js "https://example.com/new")
     true].

Definition scenarioB : list Rule :=
  [mkRule 1 (js "https://example.com/*") (js "https://example.com/new") true].

Definition scenarioC : list Rule :=
  [mkRule 1 (js "*") (js "https://x.com") false;
   mkRule 2 (js "https://a.com") (js "https://b.com") true].

(** Two rules that both apply to the event [firstMatchEvent]. *)
Definition firstMatchR1 : Rule :=
  mkRule 1 (js "https://a.com/*") (js "https://b.com") true.

Definition firstMatchR2 : Rule :=
  mkRule 2 (js "*") (js "https://c.com") true.

Definition firstMatchEvent : Details := mkDetails 7 (js "https://a.com/x") 0.

(** An event for the target of the rule of scenario B, and an event of a
    frame inside a page. *)
Definition loopEvent : Details := mkDetails 7 (js "https://example.com/new") 0.

Definition subframeEvent : Details := mkDetails 7 (js "https://a.com") 3.

(** A host whose synchronised area fails to answer. *)
Definition failingHost : Host :=
  mkHost (mkArea (mkItems None None) Healthy)
         (mkArea (mkItems None (Some scenarioC)) Failing).

(** ** The popup (src/popup.js)

    The popup edits the rule list through the same two storage areas.  What
    it shows on its page is recorded as it is asked for (the message by its
    name, the list by the rules it is built from); the text of the page
    itself and the timer that hides a message again are left out. *)

(** WhiteSpace and LineTerminator: the code units [trim] removes. *)
Definition isWhiteSpace (c : codeunit) : bool :=
  ((9 <=? c) && (c <=? 13)) || (c =? 32) || (c =? 160) || (c =? 5760)
  || ((8192 <=? c) && (c <=? 8202)) || (c =? 8232) || (c =? 8233)
  || (c =? 8239) || (c =? 8287) || (c =? 12288) || (c =? 65279).

Fixpoint trimStart (s : jsstring) : jsstring :=
  match s with
  | [] => []
  | c :: s' => if isWhiteSpace c then trimStart s' else s
  end.

Definition trimEnd (s : jsstring) : jsstring := rev (trimStart (rev s)).

(** [s.trim()] *)
Definition trim (s : jsstring) : jsstring := trimEnd (trimStart s).

(** [!s] for a string. *)
Definition isEmpty (s : jsstring) : bool :=
  match s with
  | [] => true
  | _ :: _ => false
  end.

(** [a === b] for the id of a rule and the number [parseInt] gave, which is
    NaN ([None]) when the attribute held no number. *)
Definition strictEq (a : Z) (b : option Z) : bool :=
  match b with
  | Some n => (a =? n)%Z
  | None => false
  end.

(** The index of the element [find] returns, if there is one. *)
Fixpoint findIndex {A} (p : A -> bool) (l : list A) : option nat :=
  match l with
  | [] => None
  | x :: l' => if p x then Some O else option_map S (findIndex p l')
  end.

(** The array after an assignment to a field of its element of index [i]. *)
Fixpoint updateAt {A} (i : nat) (f : A -> A) (l : list A) : list A :=
  match l, i with
  | [], _ => []
  | x :: l', O => f x :: l'
  | x :: l', S i' => x :: updateAt i' f l'
  end.

(** [rule.enabled = isEnabled] *)
Definition setEnabled (isEnabled : bool) (rule : Rule) : Rule :=
  mkRule (id rule) (pattern rule) (redirect rule) isEnabled.

Inductive PopupEffect :=
| Chrome (e : Effect)
| UseSyncSet (useSync : bool)
| StatusShown (messageName : string) (isError : bool)
| InputsCleared
| RulesListed (rules : list Rule)
| ToggleChecked (checked : bool)
| LabelUpdated (useSync : bool).

Record PopupOutcome := mkPopupOutcome {
  popupCompletion : Completion;
  popupFinal : Host;
  popupTrace : list PopupEffect
}.

Definition PopupAction := Host -> PopupOutcome.

Definition finished : PopupAction := fun h => mkPopupOutcome Returned h [].

Definition failed (e : error) : PopupAction :=
  fun h => mkPopupOutcome (Uncaught e) h [].

Definition record (e : PopupEffect) (o : PopupOutcome) : PopupOutcome :=
  mkPopupOutcome (popupCompletion o) (popupFinal o) (e :: popupTrace o).

(** One statement that changes the page. *)
Definition show (e : PopupEffect) : PopupAction :=
  fun h => mkPopupOutcome Returned h [e].

(** [a; b] *)
Definition andThen (a b : PopupAction) : PopupAction :=
  fun h =>
    let o := a h in
    match popupCompletion o with
    | Returned =>
      let o' := b (popupFinal o) in
      mkPopupOutcome (popupCompletion o') (popupFinal o')
        (popupTrace o ++ popupTrace o')
    | Uncaught _ => o
    end.

(** [storage.get([key], callback)] *)
Definition popup_get (storage : StorageArea) (key : Key)
  (callback : option Items -> PopupAction) : PopupAction :=
  fun h =>
    match status (area storage h) with
    | Healthy =>
      record (Chrome (StorageGet storage key))
             (callback (Some (pick key (items (area storage h)))) h)
    | Failing => record (Chrome (StorageGet storage key)) (callback None h)
    | Stalled => mkPopupOutcome Returned h [Chrome (StorageGet storage key)]
    end.

(** [storage.set({ redirectRules: rules }, callback)]: the callback runs
    when the write is over, done or not. *)
Definition popup_set (storage : StorageArea) (rules : list Rule)
  (callback : PopupAction) : PopupAction :=
  fun h =>
    match status (area storage h) with
    | Stalled => mkPopupOutcome Returned h [Chrome (StorageSet storage rules)]
    | _ =>
      record (Chrome (StorageSet storage rules))
             (callback (final (storage_set storage rules h)))
    end.

Definition writeFlag (useSync : bool) (a : Area) : Area :=
  match status a with
  | Healthy =>
    mkArea (mkItems (Some useSync) (redirectRules (items a))) Healthy
  | _ => a
  end.

(** [chrome.storage.local.set({ useSync: useSync }, callback)] *)
Definition popup_set_flag (useSync : bool) (callback : PopupAction)
  : PopupAction :=
  fun h =>
    match status (localArea h) with
    | Stalled => mkPopupOutcome Returned h [UseSyncSet useSync]
    | _ =>
      record (UseSyncSet useSync)
             (callback (mkHost (writeFlag useSync (localArea h)) (syncArea h)))
    end.

Definition popup_property (result : option Items) (k : Items -> PopupAction)
  : PopupAction :=
  match result with
  | Some it => k it
  | None => failed TypeError
  end.

Module Popup.

Definition getStorage (callback : StorageArea -> PopupAction) : PopupAction :=
  popup_get local useSyncKey (fun result =>
    popup_property result (fun result =>
      let storage := if notFalse (useSync result) then sync else local in
      callback storage)).

(** [showStatus(i18n(messageName), isError)] *)
Definition showStatus (messageName : string) (isError : bool) : PopupAction :=
  show (StatusShown messageName isError).

(** [displayRules]: the list is shown from the rules read, the message for
    the empty list when there is none; the handlers put on the buttons of
    the list are [deleteRule] and [toggleRule] below. *)
Definition displayRules : PopupAction :=
  getStorage (fun storage =>
    popup_get storage redirectRulesKey (fun result =>
      popup_property result (fun result =>
        let rules := orElse (redirectRules result) [] in
        show (RulesListed rules)))).

Section AddRule.

(** Whether [new URL(redirect)] returns: the URL parser is the browser's. *)
Variable URL_parses : jsstring -> bool.

(** [addRule], from the values of the two inputs; [now] is what
    [Date.now()] returns. *)
Definition addRule (patternValue redirectValue : jsstring) (now : Z)
  : PopupAction :=
  let pattern := trim patternValue in
  let redirect := trim redirectValue in
  if isEmpty pattern || isEmpty redirect
  then showStatus "errorBothRequired" true
  else if negb (URL_parses redirect)
  then showStatus "errorInvalidUrl" true
  else
    getStorage (fun storage =>
      popup_get storage redirectRulesKey (fun result =>
        popup_property result (fun result =>
          let rules := orElse (redirectRules result) [] in
          let newRule := mkRule now pattern redirect true in
          let rules := rules ++ [newRule] in
          popup_set storage rules
            (andThen (showStatus "successAddRule" false)
               (andThen (show InputsCleared) displayRules))))).

End AddRule.

(** [deleteRule], from the number read in [data-id]. *)
Definition deleteRule (ruleId : option Z) : PopupAction :=
  getStorage (fun storage =>
    popup_get storage redirectRulesKey (fun result =>
      popup_property result (fun result =>
        let rules := orElse (redirectRules result) [] in
        let filteredRules :=
          filter (fun rule => negb (strictEq (id rule) ruleId)) rules in
        popup_set storage filteredRules
          (andThen (showStatus "successDeleteRule" false) displayRules)))).

(** [toggleRule], from the number read in [data-id] and the state of the
    switch. *)
Definition toggleRule (ruleId : option Z) (isEnabled : bool) : PopupAction :=
  getStorage (fun storage =>
    popup_get storage redirectRulesKey (fun result =>
      popup_property result (fun result =>
        let rules := orElse (redirectRules result) [] in
        match findIndex (fun r => strictEq (id r) ruleId) rules with
        | Some i =>
          let rules := updateAt i (setEnabled isEnabled) rules in
          popup_set storage rules
            (andThen
               (showStatus (if isEnabled then "successEnableRule"
                            else "successDisableRule") false)
               displayRules)
        | None => finished
        end))).

Definition updateSyncToggleLabel (useSync : bool) : PopupAction :=
  show (LabelUpdated useSync).

Definition initStorageSettings : PopupAction :=
  popup_get local useSyncKey (fun result =>
    popup_property result (fun result =>
      andThen (show (ToggleChecked (notFalse (useSync result))))
        (andThen (updateSyncToggleLabel (notFalse (useSync result)))
           displayRules))).

(** [toggleStorageType], from the state of the switch. *)
Definition toggleStorageType (useSync : bool) : PopupAction :=
  popup_set_flag useSync
    (andThen (updateSyncToggleLabel useSync)
       (andThen
          (showStatus (if useSync then "successChangeSyncMode"
                       else "successChangeLocalMode") false)
          displayRules)).

End Popup.

(** A stand-in for the URL parser on concrete strings: it takes the strings
    that begin with "https://" and go on. *)
Definition httpsOnly (s : jsstring) : bool :=
  jsstring_eqb (firstn 8 s) (js "https://") && (8 <? List.length s)%nat.

(** The rule list an area holds, and the ids of a rule list. *)
Definition rulesIn (storage : StorageArea) (h : Host) : option (list Rule) :=
  redirectRules (items (area storage h)).

Definition ids (rules : list Rule) : list Z := map id rules.

(** The rules the popup lets in: a pattern and a redirect that are not
    empty, and a redirect that [new URL] takes. *)
Definition wellFormed (URL_parses : jsstring -> bool) (rules : list Rule)
  : bool :=
  forallb (fun rule => negb (isEmpty (pattern rule))
                       && negb (isEmpty (redirect rule))
                       && URL_parses (redirect rule)) rules.

(** A host with the rules of scenario C in the synchronised area, an event
    these rules redirect, and the input of a new rule. *)
Definition popupHost : Host := healthyHost None None (Some scenarioC).

Definition popupEvent : Details := mkDetails 7 (js "https://a.com") 0.

Definition newPattern : jsstring := js "  https://c.com/*  ".

Definition newRedirect : jsstring := js "https://d.com ".

Definition clock : Z := 1700000000000.

(** The rule list [deleteRule] writes, and the one [toggleRule] writes
    when it writes. *)
Definition withoutId (ruleId : option Z) (rules : list Rule) : list Rule :=
  filter (fun rule => negb (strictEq (id rule) ruleId)) rules.

Definition hasId (ruleId : option Z) (rule : Rule) : bool :=
  strictEq (id rule) ruleId.

Definition otherStorage (storage : StorageArea) : StorageArea :=
  match storage with
  | local => sync
  | sync => local
  end.

Section Engine.

(** The engine's upper-case table for the code units from 128 on: the code
    unit of [ch.toUpperCase()] when that string is one code unit long, and
    [ch] otherwise.  The table is the engine's own (Unicode data), so it is
    a parameter here. *)
Variable toUpperCase : codeunit -> codeunit.

(** Canonicalize(ch) of the matcher when [ignoreCase] is set and [unicode]
    is not: a code unit from 128 on is never mapped below 128. *)
Definition Canonicalize (ch : codeunit) : codeunit :=
  if isAscii ch then asciiUpper ch
  else let up := toUpperCase ch in
       if isAscii up then ch else up.

(** Equality of two strings code unit by code unit after [Canonicalize]. *)
Fixpoint canonicalEqb (s t : jsstring) : bool :=
  match s, t with
  | [], [] => true
  | c :: s', d :: t' => (Canonicalize c =? Canonicalize d) && canonicalEqb s' t'
  | _, _ => false
  end.

Definition atomMatches (ic : bool) (a : Atom) (c : codeunit) : bool :=
  match a with
  | PatternCharacter p =>
    if ic then Canonicalize p =? Canonicalize c else p =? c
  | Dot => negb (isLineTerminator c)
  end.

(** Backtracking matcher: [matchTerms ic ts s atStart] holds when the terms
    [ts] match a prefix of the remaining input [s]; [atStart] tells whether
    [s] is the whole input (for [^]).  A greedy quantifier tries to take
    one more code unit before it gives way to the rest. *)
Fixpoint matchTerms (ic : bool) (ts : list Term)
  : jsstring -> bool -> bool :=
  match ts with
  | [] => fun _ _ => true
  | t :: ts' =>
    let k := matchTerms ic ts' in
    let star a :=
      fix star (s : jsstring) (atStart : bool) : bool :=
        match s with
        | c :: s' => atomMatches ic a c && star s' false
        | [] => false
        end || k s atStart in
    match t with
    | AssertStart => fun s atStart => atStart && k s atStart
    | AssertEnd =>
      fun s atStart => match s with [] => k s atStart | _ :: _ => false end
    | Quantified a Once =>
      fun s _ =>
        match s with
        | c :: s' => atomMatches ic a c && k s' false
        | [] => false
        end
    | Quantified a Optional =>
      fun s atStart =>
        match s with
        | c :: s' => atomMatches ic a c && k s' false
        | [] => false
        end || k s atStart
    | Quantified a Star => star a
    | Quantified a Plus =>
      fun s _ =>
        match s with
        | c :: s' => atomMatches ic a c && star a s' false
        | [] => false
        end
    end
  end.

(** The search of [exec] with neither [g] nor [y]: try every start index
    from 0 on. *)
Fixpoint searchFrom (ic : bool) (ts : list Term) (s : jsstring)
  (atStart : bool) : bool :=
  matchTerms ic ts s atStart
  || match s with
     | [] => false
     | _ :: s' => searchFrom ic ts s' false
     end.

(** [regex.test(str)] *)
Definition RegExp_test (re : RegExp) (str : jsstring) : bool :=
  searchFrom (ignoreCase re) (terms re) str true.

(** ** matchesPattern *)

(** The class [[.+?^${}()|[\]\\]] of the first [replace]. *)
Definition specialCharacters : jsstring := js ".+?^${}()|[]\".

Definition isSpecial (c : codeunit) : bool :=
  existsb (N.eqb c) specialCharacters.

(** [pattern.replace(/[.+?^${}()|[\]\\]/g, "\\$&")] *)
Definition escapeSpecial (pattern : jsstring) : jsstring :=
  flat_map (fun c => if isSpecial c then [cu "\"; c] else [c]) pattern.

(** [s.replace(/\*/g, ".*")] *)
Definition replaceStar (s : jsstring) : jsstring :=
  flat_map (fun c => if c =? cu "*" then js ".*" else [c]) s.

(** The value of [regexPattern] when [new RegExp] is reached. *)
Definition regexSource (pattern : jsstring) : jsstring :=
  let regexPattern := replaceStar (escapeSpecial pattern) in
  if negb (endsWith regexPattern (js ".*"))
  then js "^" ++ regexPattern ++ js "/?$"
  else js "^" ++ regexPattern ++ js "$".

(** The function, with its [try]/[catch]; the console output is left out. *)
Definition matchesPattern (url pattern : jsstring) : result bool :=
  try_catch
    (rbind (RegExp_new (regexSource pattern) (js "i"))
           (fun regex => Ok (RegExp_test regex url)))
    (fun _ => Ok false).

(** ** getStorage *)

Definition getStorage (callback : StorageArea -> Action) : Action :=
  storage_get local useSyncKey (fun result =>
    property result (fun result =>
      let storage := if notFalse (useSync result) then sync else local in
      callback storage)).

(** ** The onInstalled listener *)

Definition onInstalled : Action :=
  getStorage (fun storage =>
    storage_get storage redirectRulesKey (fun result =>
      property result (fun result =>
        if negb (truthy (redirectRules result))
        then storage_set storage []
        else done))).

(** ** The onBeforeNavigate listener *)

(** The [for (const rule of rules)] loop, with its [continue] and
    [break]; the console output is left out. *)
Fixpoint forRules (details : Details) (rules : list Rule) : Action :=
  match rules with
  | [] => done
  | rule :: rest =>
    eval (if enabled rule
          then matchesPattern (url details) (pattern rule)
          else Ok false)
      (fun cond =>
         if cond then
           if jsstring_eqb (url details) (redirect rule)
           then forRules details rest
           else tabs_update (tabId details) (redirect rule)
         else forRules details rest)
  end.

Definition onBeforeNavigate (details : Details) : Action :=
  if negb (frameId details =? 0)%Z then done
  else
    getStorage (fun storage =>
      storage_get storage redirectRulesKey (fun result =>
        property result (fun result =>
          let rules := orElse (redirectRules result) [] in
          forRules details rules))).

(** ** Notions used in the statements *)

(** The terms a pattern compiles to, one per code unit of the pattern. *)
Definition termOf (c : codeunit) : Term :=
  if c =? cu "*" then Quantified Dot Star
  else Quantified (PatternCharacter c) Once.

Definition bodyTerms (pattern : jsstring) : list Term := map termOf pattern.

(** The terms the regular expression of a pattern is made of. *)
Definition compiled (pattern : jsstring) : list Term :=
  AssertStart :: bodyTerms pattern
  ++ (if endsWith pattern (js "*") then [AssertEnd]
      else [Quantified (PatternCharacter (cu "/")) Optional; AssertEnd]).

(** [s.includes(c)] for one code unit. *)
Definition includes (s : jsstring) (c : codeunit) : bool :=
  existsb (N.eqb c) s.

(** The redirect commands, the writes and the reads of a trace. *)
Definition redirects (t : list Effect) : list (Z * jsstring) :=
  flat_map (fun e => match e with
                     | TabsUpdate tab target => [(tab, target)]
                     | _ => []
                     end) t.

Definition writes (t : list Effect) : list (StorageArea * list Rule) :=
  flat_map (fun e => match e with
                     | StorageSet storage rules => [(storage, rules)]
                     | _ => []
                     end) t.

Definition reads (t : list Effect) : list (StorageArea * Key) :=
  flat_map (fun e => match e with
                     | StorageGet storage key => [(storage, key)]
                     | _ => []
                     end) t.

(** The storage area [getStorage] selects in a host. *)
Definition currentStorage (h : Host) : StorageArea :=
  if notFalse (useSync (items (localArea h))) then sync else local.

(** What the read of the rule list yields in a host: the value of
    [result.redirectRules] when the two reads succeed, nothing when one of
    them fails or stalls. *)
Inductive Read :=
| Delivered (rules : option (list Rule))
| Undelivered.

Definition readRules (h : Host) : Read :=
  match status (localArea h), status (area (currentStorage h) h) with
  | Healthy, Healthy =>
    Delivered (redirectRules (items (area (currentStorage h) h)))
  | _, _ => Undelivered
  end.

(** How the read of the rule list ends in a host: the state of the local
    area when its read is not answered with the flag, and the state of the
    area the flag selects otherwise. *)
Definition readStatus (h : Host) : AreaStatus :=
  match status (localArea h) with
  | Healthy => status (area (currentStorage h) h)
  | unanswered => unanswered
  end.

(** A rule that is enabled, whose pattern matches the URL of the event and
    whose redirect differs from it. *)
Definition applicable (details : Details) (rule : Rule) : bool :=
  enabled rule
  && match matchesPattern (url details) (pattern rule) with
     | Ok result => result
     | Throw _ => false
     end
  && negb (jsstring_eqb (url details) (redirect rule)).

(** The command of a rule for an event. *)
Definition command (details : Details) (rule : Rule) : Z * jsstring :=
  (tabId details, redirect rule).

(** What the two [replace] calls make of one code unit. *)
Definition transformOne (c : codeunit) : jsstring :=
  if isSpecial c then [cu "\"; c]
  else if c =? cu "*" then js ".*"
  else [c].

(** ** Properties of the pattern compiler *)

Lemma jsstring_eqb_eq (s t : jsstring) : jsstring_eqb s t = true <-> s = t.
Proof.
  unfold jsstring_eqb. destruct (list_eq_dec N.eq_dec s t); split;
    intros; congruence.
Qed.

Lemma jsstring_eqb_refl (s : jsstring) : jsstring_eqb s s = true.
Proof. now apply jsstring_eqb_eq. Qed.

Lemma isSpecial_true (c : codeunit) :
  isSpecial c = true -> In c specialCharacters.
Proof.
  intros H. apply existsb_exists in H. destruct H as [k [Hin Hk]].
  apply N.eqb_eq in Hk. now subst k.
Qed.

Lemma isSpecial_false (c k : codeunit) :
  isSpecial c = false -> isSpecial k = true -> (c =? k) = false.
Proof.
  intros Hc Hk. destruct (N.eqb_spec c k); [subst; congruence | reflexivity].
Qed.

Lemma isSpecial_not_star (c : codeunit) :
  isSpecial c = true -> (c =? cu "*") = false.
Proof.
  intros H. apply isSpecial_true in H. cbv in H.
  intuition (subst; reflexivity).
Qed.

Lemma isSyntaxCharacter_special (c : codeunit) :
  isSyntaxCharacter c = isSpecial c || (c =? cu "*").
Proof.
  destruct (isSpecial c) eqn:Hs.
  - apply isSpecial_true in Hs. cbv in Hs.
    intuition (subst; reflexivity).
  - unfold isSyntaxCharacter. cbn [orb].
    change syntaxCharacters
      with ([cu "^"; cu "$"; cu "\"; cu "."; cu "*"] ++ js "+?()[]{}|").
    rewrite existsb_app. cbn [existsb].
    rewrite !(isSpecial_false _ _ Hs) by reflexivity.
    cbn [orb]. rewrite orb_false_r.
    destruct (c =? cu "*"); [reflexivity |].
    cbn [orb]. apply not_true_is_false. intros H.
    apply existsb_exists in H. destruct H as [k [Hin Hk]].
    rewrite (isSpecial_false _ _ Hs) in Hk; [discriminate |].
    cbv in Hin. intuition (subst; reflexivity).
Qed.

Lemma replaceStar_app (s t : jsstring) :
  replaceStar (s ++ t) = replaceStar s ++ replaceStar t.
Proof. unfold replaceStar. apply flat_map_app. Qed.

Lemma transform_flat_map (pattern : jsstring) :
  replaceStar (escapeSpecial pattern) = flat_map transformOne pattern.
Proof.
  induction pattern as [| c p IH]; [reflexivity |].
  change (escapeSpecial (c :: p))
    with ((if isSpecial c then [cu "\"; c] else [c]) ++ escapeSpecial p).
  rewrite replaceStar_app, IH. cbn [flat_map]. f_equal.
  unfold transformOne. destruct (isSpecial c) eqn:Hs.
  - unfold replaceStar. cbn [flat_map].
    rewrite (isSpecial_not_star _ Hs). reflexivity.
  - unfold replaceStar. cbn [flat_map]. rewrite app_nil_r. reflexivity.
Qed.

(** One code unit of the pattern is read back as its term. *)
Lemma parseTerms_transformOne (c : codeunit) (acc : list Term)
  (rest : jsstring) :
  parseTerms acc (transformOne c ++ rest) = parseTerms (termOf c :: acc) rest.
Proof.
  unfold transformOne, termOf. destruct (isSpecial c) eqn:Hs.
  - rewrite (isSpecial_not_star _ Hs).
    change ([cu "\"; c] ++ rest) with (cu "\" :: c :: rest).
    cbn [parseTerms]. change (quantifierOf (cu "\")) with (@None Quantifier).
    cbv beta iota.
    change (cu "\" =? cu "^") with false.
    change (cu "\" =? cu "$") with false.
    change (cu "\" =? cu ".") with false.
    change (cu "\" =? cu "\") with true. cbv beta iota.
    rewrite isSyntaxCharacter_special, Hs. reflexivity.
  - destruct (c =? cu "*") eqn:Hstar.
    + reflexivity.
    + change ([c] ++ rest) with (c :: rest). cbn [parseTerms].
      unfold quantifierOf. rewrite Hstar.
      rewrite !(isSpecial_false _ _ Hs) by reflexivity.
      rewrite isSyntaxCharacter_special, Hs, Hstar. reflexivity.
Qed.

Lemma parseTerms_transform (pattern : jsstring) (acc : list Term)
  (rest : jsstring) :
  parseTerms acc (flat_map transformOne pattern ++ rest)
  = parseTerms (rev (bodyTerms pattern) ++ acc) rest.
Proof.
  revert acc. induction pattern as [| c p IH]; intros acc; [reflexivity |].
  cbn [flat_map bodyTerms map rev]. rewrite <- !app_assoc.
  rewrite parseTerms_transformOne, IH. reflexivity.
Qed.

Lemma endsWith_spec (s suffix : jsstring) :
  endsWith s suffix = true <-> exists pre, s = pre ++ suffix.
Proof.
  unfold endsWith. rewrite andb_true_iff, Nat.leb_le, jsstring_eqb_eq. split.
  - intros [_ H]. exists (firstn (List.length s - List.length suffix) s).
    rewrite <- H at 2. symmetry. apply firstn_skipn.
  - intros [pre ->]. rewrite length_app. split; [lia |].
    replace (List.length pre + List.length suffix - List.length suffix)%nat
      with (List.length pre + 0)%nat by lia.
    rewrite skipn_app, Nat.add_0_r, skipn_all, Nat.sub_diag. reflexivity.
Qed.

Lemma transformOne_last (c : codeunit) :
  exists front, transformOne c = front ++ [c].
Proof.
  unfold transformOne. destruct (isSpecial c).
  - now exists [cu "\"].
  - destruct (N.eqb_spec c (cu "*")) as [-> |].
    + now exists [cu "."].
    + now exists [].
Qed.

Lemma endsWith_transform (pattern : jsstring) :
  endsWith (flat_map transformOne pattern) (js ".*")
  = endsWith pattern (js "*").
Proof.
  apply eq_iff_eq_true. rewrite !endsWith_spec. split.
  - intros [pre H]. destruct pattern as [| c p] using rev_ind.
    + destruct pre; discriminate H.
    + exists p. f_equal. rewrite flat_map_app in H. cbn [flat_map] in H.
      rewrite app_nil_r in H.
      destruct (transformOne_last c) as [front Hc]. rewrite Hc in H.
      change (js ".*") with ([cu "."] ++ [cu "*"]) in H.
      rewrite !app_assoc in H. apply app_inj_tail in H.
      destruct H as [_ ->]. reflexivity.
  - intros [q ->]. exists (flat_map transformOne q).
    rewrite flat_map_app. reflexivity.
Qed.

(** The regular expression [matchesPattern] builds is well formed, and it
    is made of the terms [compiled pattern]. *)
Lemma regexSource_compiles (pattern : jsstring) :
  RegExp_new (regexSource pattern) (js "i")
  = Ok (mkRegExp (compiled pattern) true).
Proof.
  unfold regexSource. rewrite transform_flat_map, endsWith_transform.
  unfold RegExp_new, compiled.
  change (jsstring_eqb (js "i") [] || jsstring_eqb (js "i") (js "i"))
    with true.
  change (jsstring_eqb (js "i") (js "i")) with true. cbv iota.
  destruct (endsWith pattern (js "*")); cbn [negb];
    change (js "^" ++ ?s) with (cu "^" :: s);
    change (parseTerms [] (cu "^" :: ?s)) with (parseTerms [AssertStart] s);
    rewrite parseTerms_transform.
  - change (parseTerms ?acc (js "$")) with (Ok (rev (AssertEnd :: acc))).
    cbn [rbind rev]. rewrite rev_app_distr, rev_involutive. reflexivity.
  - change (parseTerms ?acc (js "/?$"))
      with (Ok (rev (AssertEnd
                       :: Quantified (PatternCharacter (cu "/")) Optional
                       :: acc))).
    cbn [rbind rev]. rewrite rev_app_distr, rev_involutive.
    rewrite <- !app_assoc. reflexivity.
Qed.

(** ** Properties of the matcher *)

Lemma asciiUpper_ascii (c : codeunit) :
  isAscii c = true -> isAscii (asciiUpper c) = true.
Proof.
  unfold isAscii, asciiUpper. rewrite !N.ltb_lt. intros H.
  destruct ((cu "a" <=? c) && (c <=? cu "z")); lia.
Qed.

Lemma asciiUpper_not_ascii (c : codeunit) :
  isAscii c = false -> asciiUpper c = c.
Proof.
  unfold isAscii, asciiUpper. rewrite N.ltb_ge. intros H.
  change (cu "z") with 122.
  destruct (N.leb_spec c 122); [lia |]. now rewrite andb_false_r.
Qed.

Lemma Canonicalize_ascii (c : codeunit) :
  isAscii c = true -> Canonicalize c = asciiUpper c.
Proof. unfold Canonicalize. now intros ->. Qed.

Lemma Canonicalize_not_ascii (c : codeunit) :
  isAscii c = false -> isAscii (Canonicalize c) = false.
Proof.
  unfold Canonicalize. intros H. rewrite H.
  destruct (isAscii (toUpperCase c)) eqn:Hu; assumption.
Qed.

(** On an ASCII code unit the comparison of the matcher is the comparison
    up to the case of ASCII letters, whatever the other code unit is. *)
Lemma Canonicalize_eqb_ascii (c d : codeunit) :
  isAscii c = true ->
  (Canonicalize c =? Canonicalize d) = (asciiUpper c =? asciiUpper d).
Proof.
  intros Hc. rewrite (Canonicalize_ascii c Hc).
  destruct (isAscii d) eqn:Hd.
  - now rewrite (Canonicalize_ascii d Hd).
  - rewrite (asciiUpper_not_ascii d Hd).
    pose proof (asciiUpper_ascii c Hc) as H1.
    pose proof (Canonicalize_not_ascii d Hd) as H2.
    unfold isAscii in *. rewrite N.ltb_lt in H1. rewrite N.ltb_ge in H2, Hd.
    transitivity false; [| symmetry]; apply N.eqb_neq; lia.
Qed.

Lemma canonicalEqb_ascii (s t : jsstring) :
  forallb isAscii s = true -> canonicalEqb s t = asciiCaseEqb s t.
Proof.
  revert t. induction s as [| c s IH]; intros [| d t] H; try reflexivity.
  cbn [forallb] in H. apply andb_true_iff in H. destruct H as [Hc Hs].
  cbn [canonicalEqb asciiCaseEqb].
  now rewrite (Canonicalize_eqb_ascii c d Hc), (IH t Hs).
Qed.

(** A code unit the matcher takes for [*] is [*] itself. *)
Lemma Canonicalize_star (d : codeunit) :
  (Canonicalize d =? Canonicalize (cu "*")) = true -> d = cu "*".
Proof.
  rewrite N.eqb_sym, (Canonicalize_eqb_ascii (cu "*") d eq_refl).
  change (asciiUpper (cu "*")) with 42. change (cu "*") with 42.
  rewrite N.eqb_eq. unfold asciiUpper.
  change (cu "a") with 97. change (cu "z") with 122.
  destruct (N.leb_spec 97 d), (N.leb_spec d 122); cbn [andb]; lia.
Qed.

Lemma matchTerms_star (ic : bool) (a : Atom) (ts : list Term)
  (s : jsstring) (atStart : bool) :
  matchTerms ic (Quantified a Star :: ts) s atStart
  = match s with
    | c :: s' =>
      atomMatches ic a c && matchTerms ic (Quantified a Star :: ts) s' false
    | [] => false
    end || matchTerms ic ts s atStart.
Proof. destruct s; reflexivity. Qed.

(** With [^] in front, only the start index 0 can match. *)
Lemma searchFrom_AssertStart (ic : bool) (ts : list Term) (s : jsstring) :
  searchFrom ic (AssertStart :: ts) s true = matchTerms ic ts s true.
Proof.
  assert (H : forall s', searchFrom ic (AssertStart :: ts) s' false = false).
  { induction s' as [| c s' IH]; [reflexivity |]. cbn [searchFrom].
    rewrite IH. reflexivity. }
  destruct s as [| c s]; cbn [searchFrom]; [| rewrite H];
    rewrite orb_false_r; reflexivity.
Qed.

(** [matchesPattern] never reaches its [catch]: it is the match of the
    compiled terms at the start of the URL. *)
Lemma matchesPattern_compiled (url pattern : jsstring) :
  matchesPattern url pattern
  = Ok (matchTerms true (tl (compiled pattern)) url true).
Proof.
  unfold matchesPattern. rewrite regexSource_compiles.
  cbn [rbind try_catch]. unfold RegExp_test. cbn [ignoreCase terms].
  unfold compiled at 1. rewrite searchFrom_AssertStart. reflexivity.
Qed.

(** A pattern without [*] is matched code unit by code unit, with one
    optional [/] after it. *)
Lemma matchTerms_literal (pattern s : jsstring) (atStart : bool) :
  includes pattern (cu "*") = false ->
  matchTerms true
    (bodyTerms pattern
     ++ [Quantified (PatternCharacter (cu "/")) Optional; AssertEnd])
    s atStart
  = canonicalEqb s pattern || canonicalEqb s (pattern ++ js "/").
Proof.
  change (js "/") with [cu "/"].
  revert s atStart. induction pattern as [| c p IH]; intros s atStart H.
  - destruct s as [| d [| e s]]; [reflexivity | |].
    + cbn [bodyTerms map app matchTerms atomMatches canonicalEqb].
      now rewrite N.eqb_sym, !andb_true_r, orb_false_r.
    + cbn [bodyTerms map app matchTerms atomMatches canonicalEqb].
      now rewrite !andb_false_r.
  - cbn [includes existsb] in H. apply orb_false_iff in H.
    destruct H as [Hc Hp]. fold (includes p (cu "*")) in Hp.
    cbn [bodyTerms map app]. unfold termOf at 1.
    rewrite N.eqb_sym, Hc. fold (bodyTerms p).
    destruct s as [| d s]; [reflexivity |].
    cbn [matchTerms atomMatches canonicalEqb app].
    rewrite (IH s false Hp), (N.eqb_sym (Canonicalize c)).
    now rewrite andb_orb_distrib_r.
Qed.

Lemma matchTerms_dot_star_end (s : jsstring) (atStart : bool) :
  existsb isLineTerminator s = false ->
  matchTerms true [Quantified Dot Star; AssertEnd] s atStart = true.
Proof.
  revert atStart. induction s as [| c s IH]; intros atStart H.
  - reflexivity.
  - cbn [existsb] in H. apply orb_false_iff in H. destruct H as [Hc Hs].
    rewrite matchTerms_star. cbn [atomMatches]. rewrite Hc, (IH false Hs).
    reflexivity.
Qed.

(** The terms of a prefix match every string equal to it for the matcher,
    its [*] taken as they stand. *)
Lemma matchTerms_prefix (pre head : jsstring) (ts : list Term)
  (s : jsstring) :
  canonicalEqb head pre = true ->
  (forall atStart, matchTerms true ts s atStart = true) ->
  forall atStart,
    matchTerms true (bodyTerms pre ++ ts) (head ++ s) atStart = true.
Proof.
  revert head. induction pre as [| c pre IH]; intros [| d head] H Hts atStart;
    try discriminate H.
  - apply Hts.
  - cbn [canonicalEqb] in H. apply andb_true_iff in H.
    destruct H as [Hd Hhead]. specialize (IH head Hhead Hts).
    cbn [bodyTerms map app]. fold (bodyTerms pre). unfold termOf.
    destruct (N.eqb_spec c (cu "*")) as [-> | Hc].
    + apply Canonicalize_star in Hd. subst d.
      rewrite matchTerms_star.
      change (atomMatches true Dot (cu "*")) with true. cbn [andb].
      rewrite matchTerms_star, (IH false), orb_true_r. reflexivity.
    + cbn [matchTerms atomMatches]. rewrite N.eqb_sym, Hd. apply IH.
Qed.

Lemma asciiCaseEqb_canonicalEqb (s t : jsstring) :
  asciiCaseEqb s t = true -> canonicalEqb s t = true.
Proof.
  revert t. induction s as [| c s IH]; intros [| d t] H;
    try discriminate H; [reflexivity |].
  cbn [asciiCaseEqb] in H. apply andb_true_iff in H. destruct H as [Hc Hs].
  cbn [canonicalEqb]. rewrite (IH t Hs), andb_true_r.
  destruct (isAscii c) eqn:Ec.
  - now rewrite (Canonicalize_eqb_ascii c d Ec).
  - rewrite N.eqb_sym. destruct (isAscii d) eqn:Ed.
    + now rewrite (Canonicalize_eqb_ascii d c Ed), N.eqb_sym.
    + rewrite (asciiUpper_not_ascii c Ec), (asciiUpper_not_ascii d Ed) in Hc.
      apply N.eqb_eq in Hc. subst d. apply N.eqb_refl.
Qed.

Lemma canonicalEqb_ascii_r (s t : jsstring) :
  forallb isAscii t = true -> canonicalEqb s t = asciiCaseEqb s t.
Proof.
  revert s. induction t as [| d t IH]; intros [| c s] H; try reflexivity.
  cbn [forallb] in H. apply andb_true_iff in H. destruct H as [Hd Ht].
  cbn [canonicalEqb asciiCaseEqb].
  rewrite (N.eqb_sym (Canonicalize c)), (N.eqb_sym (asciiUpper c)).
  now rewrite (Canonicalize_eqb_ascii d c Hd), (IH s Ht).
Qed.

(** The [catch] of [matchesPattern] turns every exception into [false]. *)
Lemma matchesPattern_returns (u p : jsstring) :
  exists result, matchesPattern u p = Ok result.
Proof.
  unfold matchesPattern.
  destruct (RegExp_new (regexSource p) (js "i")); cbn [rbind try_catch];
    eauto.
Qed.

(** ** The pattern compiler: claims C2, C3, C7 and C10 *)

(** C2, as amended.  For a pattern without [*], [matchesPattern] accepts
    exactly the URLs equal to the pattern, or to the pattern followed by one
    [/], for the comparison of the matcher: code unit by code unit after
    [Canonicalize].  When the URL, or the pattern, is made of ASCII code
    units only, this is equality up to the case of ASCII letters. *)
Theorem exact_pattern_matches (url pattern : jsstring) :
  includes pattern (cu "*") = false ->
  matchesPattern url pattern
  = Ok (canonicalEqb url pattern || canonicalEqb url (pattern ++ js "/"))
  /\ (forallb isAscii url = true \/ forallb isAscii pattern = true ->
      matchesPattern url pattern
      = Ok (asciiCaseEqb url pattern
            || asciiCaseEqb url (pattern ++ js "/"))).
Proof.
  intros Hstar.
  assert (E : matchesPattern url pattern
              = Ok (canonicalEqb url pattern
                    || canonicalEqb url (pattern ++ js "/"))).
  { rewrite matchesPattern_compiled. unfold compiled. cbn [tl].
    assert (Hend : endsWith pattern (js "*") = false).
    { apply not_true_is_false. intros H. apply endsWith_spec in H.
      destruct H as [pre ->]. unfold includes in Hstar.
      rewrite existsb_app in Hstar. apply orb_false_iff in Hstar.
      destruct Hstar as [_ Hstar]. discriminate Hstar. }
    rewrite Hend. now rewrite matchTerms_literal. }
  split; [exact E |]. intros [Hu | Hp]; rewrite E.
  - now rewrite !(canonicalEqb_ascii url) by exact Hu.
  - rewrite !canonicalEqb_ascii_r; [reflexivity | | exact Hp].
    rewrite forallb_app, Hp. reflexivity.
Qed.

(** C3, as amended.  For a pattern that ends in [*], [matchesPattern]
    accepts every URL made of a string equal to the text before that last
    [*], for the comparison of the matcher or up to the case of ASCII
    letters, followed by any code units none of which is a line
    terminator. *)
Theorem trailing_star_matches_prefix (pre head rest : jsstring) :
  canonicalEqb head pre = true \/ asciiCaseEqb head pre = true ->
  existsb isLineTerminator rest = false ->
  matchesPattern (head ++ rest) (pre ++ js "*") = Ok true.
Proof.
  intros Hhead Hrest.
  assert (Hhead' : canonicalEqb head pre = true).
  { destruct Hhead as [H | H]; [exact H |].
    now apply asciiCaseEqb_canonicalEqb. }
  clear Hhead. rename Hhead' into Hhead.
  rewrite matchesPattern_compiled. unfold compiled.
  cbn [tl].
  assert (Hend : endsWith (pre ++ js "*") (js "*") = true).
  { apply endsWith_spec. now exists pre. }
  rewrite Hend. unfold bodyTerms. rewrite map_app, <- app_assoc.
  f_equal. apply matchTerms_prefix; [exact Hhead |].
  intros atStart. now apply matchTerms_dot_star_end.
Qed.

(** C7.  [matchesPattern] never throws: it returns the result of the test
    when the regular expression can be built, and [false], for every URL,
    when it cannot, as the [try] and [catch] do for any source that
    [new RegExp] refuses.  The loop over the rules always runs to its end,
    and a rule for which [matchesPattern] returns [false] is passed over:
    no pattern aborts the evaluation of the other rules. *)
Theorem matchesPattern_never_throws :
  (forall url pattern,
      matchesPattern url pattern
      = Ok match RegExp_new (regexSource pattern) (js "i") with
           | Ok regex => RegExp_test regex url
           | Throw _ => false
           end)
  /\ (forall source e,
        RegExp_new source (js "i") = Throw e ->
        forall url,
          try_catch
            (rbind (RegExp_new source (js "i"))
                   (fun regex => Ok (RegExp_test regex url)))
            (fun _ => Ok false)
          = Ok false)
  /\ (forall details rules h,
        completion (forRules details rules h) = Returned)
  /\ (forall details rule rest h,
        matchesPattern (url details) (pattern rule) = Ok false ->
        forRules details (rule :: rest) h = forRules details rest h).
Proof.
  split; [| split; [| split]].
  - intros u p. unfold matchesPattern.
    destruct (RegExp_new (regexSource p) (js "i")); reflexivity.
  - intros source e E u. rewrite E. reflexivity.
  - intros details rules h. induction rules as [| rule rest IH];
      [reflexivity |].
    cbn [forRules].
    destruct (matchesPattern_returns (url details) (pattern rule))
      as [result E].
    destruct (enabled rule); [rewrite E |]; cbn [eval]; [| exact IH].
    destruct result; [| exact IH].
    destruct (jsstring_eqb (url details) (redirect rule));
      [exact IH | reflexivity].
  - intros details rule rest h E. cbn [forRules]. rewrite E.
    destruct (enabled rule); reflexivity.
Qed.

(** C10.  For every pattern the source handed to [new RegExp] is well
    formed: the regular expression is built, the [catch] is not reached,
    and [matchesPattern] is the test of that regular expression on the
    URL. *)
Theorem regexSource_always_valid (pattern : jsstring) :
  RegExp_new (regexSource pattern) (js "i")
  = Ok (mkRegExp (compiled pattern) true)
  /\ forall url,
      rbind (RegExp_new (regexSource pattern) (js "i"))
            (fun regex => Ok (RegExp_test regex url))
      = Ok (RegExp_test (mkRegExp (compiled pattern) true) url)
      /\ matchesPattern url pattern
         = Ok (RegExp_test (mkRegExp (compiled pattern) true) url).
Proof.
  split; [apply regexSource_compiles |]. intros url.
  unfold matchesPattern. rewrite regexSource_compiles. split; reflexivity.
Qed.

(** ** Properties of the listeners *)

Lemma forRules_find (details : Details) (rules : list Rule) (h : Host) :
  forRules details rules h
  = mkOutcome Returned h
      match find (applicable details) rules with
      | Some rule => [TabsUpdate (tabId details) (redirect rule)]
      | None => []
      end.
Proof.
  induction rules as [| rule rest IH]; [reflexivity |].
  cbn [forRules find]. unfold applicable at 1.
  destruct (matchesPattern_returns (url details) (pattern rule))
    as [result E].
  rewrite E. destruct (enabled rule); cbn [eval andb]; [| exact IH].
  destruct result; cbn [andb]; [| exact IH].
  destruct (jsstring_eqb (url details) (redirect rule)); cbn [negb];
    [exact IH | reflexivity].
Qed.

Lemma find_first {A} (p : A -> bool) (before : list A) (x : A)
  (after : list A) :
  existsb p before = false -> p x = true ->
  find p (before ++ x :: after) = Some x.
Proof.
  intros Hb Hx. induction before as [| y before IH].
  - cbn [app find]. now rewrite Hx.
  - cbn [existsb] in Hb. apply orb_false_iff in Hb. destruct Hb as [Hy Hb].
    cbn [app find]. rewrite Hy. now apply IH.
Qed.

(** The listener on a top-level event whose two reads are answered. *)
Lemma onBeforeNavigate_delivered (details : Details) (h : Host)
  (v : option (list Rule)) :
  frameId details = 0%Z -> readRules h = Delivered v ->
  onBeforeNavigate details h
  = emit (StorageGet local useSyncKey)
      (emit (StorageGet (currentStorage h) redirectRulesKey)
         (forRules details (orElse v []) h)).
Proof.
  intros Hframe Hread. unfold onBeforeNavigate, getStorage, storage_get.
  rewrite Hframe. cbn [Z.eqb negb area]. unfold readRules in Hread.
  destruct (status (localArea h)); try discriminate Hread.
  cbn [property pick useSync]. fold (currentStorage h).
  destruct (status (area (currentStorage h) h)); try discriminate Hread.
  injection Hread as <-. cbn [property pick redirectRules]. reflexivity.
Qed.

(** The listener on a top-level event one of whose reads is not
    answered: the trace holds the reads made, each once, and nothing
    else. *)
Lemma onBeforeNavigate_undelivered (details : Details) (h : Host) :
  frameId details = 0%Z -> readRules h = Undelivered ->
  let o := onBeforeNavigate details h in
  (completion o = Returned \/ completion o = Uncaught TypeError)
  /\ final o = h
  /\ (trace o = [StorageGet local useSyncKey]
      \/ trace o = [StorageGet local useSyncKey;
                    StorageGet (currentStorage h) redirectRulesKey]).
Proof.
  intros Hframe Hread. unfold onBeforeNavigate, getStorage, storage_get.
  rewrite Hframe. cbn [Z.eqb negb area]. unfold readRules in Hread.
  destruct (status (localArea h)); cbn [property pick useSync];
    try (cbn; tauto).
  fold (currentStorage h).
  destruct (status (area (currentStorage h) h)); try discriminate Hread;
    cbn; tauto.
Qed.

Lemma onBeforeNavigate_subframe (details : Details) (h : Host) :
  frameId details <> 0%Z -> onBeforeNavigate details h = done h.
Proof.
  intros H. unfold onBeforeNavigate.
  destruct (Z.eqb_spec (frameId details) 0); [contradiction | reflexivity].
Qed.

Lemma redirects_delivered (details : Details) (h : Host)
  (v : option (list Rule)) :
  frameId details = 0%Z -> readRules h = Delivered v ->
  redirects (trace (onBeforeNavigate details h))
  = match find (applicable details) (orElse v []) with
    | Some rule => [command details rule]
    | None => []
    end.
Proof.
  intros Hframe Hread.
  rewrite (onBeforeNavigate_delivered details h v Hframe Hread), forRules_find.
  cbn [emit trace redirects flat_map app].
  destruct (find (applicable details) (orElse v [])); reflexivity.
Qed.

Lemma redirects_undelivered (details : Details) (h : Host) :
  frameId details = 0%Z -> readRules h = Undelivered ->
  redirects (trace (onBeforeNavigate details h)) = [].
Proof.
  intros Hframe Hread.
  destruct (onBeforeNavigate_undelivered details h Hframe Hread)
    as [_ [_ [E | E]]]; cbv zeta in E; rewrite E; reflexivity.
Qed.

Lemma find_filter {A} (p q : A -> bool) (l : list A) :
  (forall x, p x = true -> q x = true) ->
  find p (filter q l) = find p l.
Proof.
  intros H. induction l as [| x l IH]; [reflexivity |].
  cbn [filter find]. destruct (q x) eqn:Hq.
  - cbn [find]. now rewrite IH.
  - destruct (p x) eqn:Hp; [| exact IH].
    apply H in Hp. congruence.
Qed.

(** ** The listeners: claims C1, C4, C5, C6, C8 and C9 *)

(** C1.  For every event and every host the listener issues at most one
    redirect command; on a top-level event whose read yields the rules
    [rules] the command is the redirect of the first rule of [rules], in
    stored order, that is enabled, matches the URL and does not redirect to
    it, and there is no command when there is no such rule.  For two rules
    [[R1; R2]] that are both enabled, both match and both redirect
    elsewhere, the command is that of [R1] alone. *)
Theorem first_match_wins (details : Details) (h : Host) :
  (List.length (redirects (trace (onBeforeNavigate details h))) <= 1)%nat
  /\ (forall rules,
        frameId details = 0%Z -> readRules h = Delivered (Some rules) ->
        redirects (trace (onBeforeNavigate details h))
        = match find (applicable details) rules with
          | Some rule => [command details rule]
          | None => []
          end)
  /\ (forall before rule after,
        frameId details = 0%Z ->
        readRules h = Delivered (Some (before ++ rule :: after)) ->
        existsb (applicable details) before = false ->
        applicable details rule = true ->
        redirects (trace (onBeforeNavigate details h))
        = [command details rule])
  /\ (forall R1 R2,
        frameId details = 0%Z -> readRules h = Delivered (Some [R1; R2]) ->
        enabled R1 = true -> enabled R2 = true ->
        matchesPattern (url details) (pattern R1) = Ok true ->
        matchesPattern (url details) (pattern R2) = Ok true ->
        redirect R1 <> url details -> redirect R2 <> url details ->
        redirects (trace (onBeforeNavigate details h))
        = [command details R1]).
Proof.
  split; [| split; [| split]].
  - destruct (Z.eq_dec (frameId details) 0) as [Hframe | Hframe].
    + destruct (readRules h) as [v |] eqn:Hread.
      * rewrite (redirects_delivered details h _ Hframe Hread).
        destruct (find (applicable details) (orElse v [])); cbn; lia.
      * rewrite (redirects_undelivered details h Hframe Hread). cbn; lia.
    + rewrite (onBeforeNavigate_subframe details h Hframe). cbn; lia.
  - intros rules Hframe Hread.
    exact (redirects_delivered details h _ Hframe Hread).
  - intros before rule after Hframe Hread Hbefore Hrule.
    rewrite (redirects_delivered details h _ Hframe Hread). cbn [orElse].
    now rewrite (find_first _ before rule after Hbefore Hrule).
  - intros R1 R2 Hframe Hread He1 _ Hm1 _ Hr1 _.
    rewrite (redirects_delivered details h _ Hframe Hread).
    cbn [orElse find]. unfold applicable at 1. rewrite He1, Hm1.
    destruct (jsstring_eqb (url details) (redirect R1)) eqn:E.
    + apply jsstring_eqb_eq in E. congruence.
    + reflexivity.
Qed.

(** C4.  A rule that is enabled and matches the URL of the event, and whose
    redirect is that URL, issues no command and does not stop the loop: the
    loop goes on with the rules after it, and the first of these that is
    enabled, matches and redirects elsewhere is the one applied. *)
Theorem loop_rule_skipped (details : Details) (rule : Rule)
  (rest : list Rule) (h : Host) :
  enabled rule = true ->
  matchesPattern (url details) (pattern rule) = Ok true ->
  redirect rule = url details ->
  forRules details (rule :: rest) h = forRules details rest h
  /\ (frameId details = 0%Z ->
      readRules h = Delivered (Some (rule :: rest)) ->
      redirects (trace (onBeforeNavigate details h))
      = match find (applicable details) rest with
        | Some next => [command details next]
        | None => []
        end)
  /\ (forall before next after,
        rest = before ++ next :: after ->
        existsb (applicable details) before = false ->
        applicable details next = true ->
        trace (forRules details (rule :: rest) h)
        = [TabsUpdate (tabId details) (redirect next)]).
Proof.
  intros He Hm Hr.
  assert (Hskip : applicable details rule = false).
  { unfold applicable. now rewrite He, Hm, Hr, jsstring_eqb_refl. }
  split; [| split].
  - cbn [forRules]. rewrite He, Hm. cbn [eval].
    now rewrite Hr, jsstring_eqb_refl.
  - intros Hframe Hread. rewrite (redirects_delivered details h _ Hframe Hread).
    cbn [orElse find]. now rewrite Hskip.
  - intros before next after -> Hbefore Hnext. rewrite forRules_find.
    cbn [find trace]. rewrite Hskip.
    now rewrite (find_first _ before next after Hbefore Hnext).
Qed.

(** C5.  The initializer writes at most once, the empty list, and only when
    the read of the rule list is answered without the key; when the key
    holds a list, the empty one included, it writes nothing and leaves the
    host as it is.  Run again after a first run, it writes nothing and
    leaves the host as the first run left it. *)
Theorem onInstalled_idempotent (h : Host) :
  writes (trace (onInstalled h))
  = match readRules h with
    | Delivered None => [(currentStorage h, [])]
    | _ => []
    end
  /\ (forall rules,
        readRules h = Delivered (Some rules) ->
        final (onInstalled h) = h /\ writes (trace (onInstalled h)) = [])
  /\ (readRules h = Delivered (Some []) ->
        final (onInstalled h) = h /\ writes (trace (onInstalled h)) = [])
  /\ (readRules h = Delivered None ->
        readRules (final (onInstalled h)) = Delivered (Some []))
  /\ final (onInstalled (final (onInstalled h))) = final (onInstalled h)
  /\ readRules (final (onInstalled (final (onInstalled h))))
     = readRules (final (onInstalled h))
  /\ writes (trace (onInstalled (final (onInstalled h)))) = [].
Proof.
  destruct h as [[[flag localRules] localStatus]
                   [[syncFlag syncRules] syncStatus]].
  destruct flag as [[|] |], localStatus, syncStatus, localRules, syncRules;
    cbn; repeat split; intros; try discriminate; reflexivity.
Qed.

(** C6.  A rule that is not enabled issues no command, whatever its
    pattern and redirect, and the loop goes on after it: the loop does on a
    list what it does on the enabled rules of that list, and a command
    issued always is the redirect of an enabled rule.  With the rules of
    scenario C, an event for "https://a.com" is redirected to
    "https://b.com". *)
Theorem disabled_rule_skipped :
  (forall details i p r rest h,
      forRules details (mkRule i p r false :: rest) h
      = forRules details rest h)
  /\ (forall details rules h,
        forRules details rules h
        = forRules details (filter enabled rules) h)
  /\ (forall details h rules tab target,
        frameId details = 0%Z -> readRules h = Delivered (Some rules) ->
        In (tab, target) (redirects (trace (onBeforeNavigate details h))) ->
        exists rule,
          In rule rules /\ enabled rule = true /\ target = redirect rule)
  /\ (forall tab flag,
        redirects
          (trace (onBeforeNavigate (mkDetails tab (js "https://a.com") 0)
                    (healthyHost flag (Some scenarioC) (Some scenarioC))))
        = [(tab, js "https://b.com")]).
Proof.
  split; [| split; [| split]].
  - reflexivity.
  - intros details rules h. rewrite !forRules_find.
    rewrite find_filter; [reflexivity |].
    intros rule H. unfold applicable in H.
    apply andb_true_iff in H. destruct H as [H _].
    apply andb_true_iff in H. tauto.
  - intros details h rules tab target Hframe Hread Hin.
    rewrite (redirects_delivered details h _ Hframe Hread) in Hin.
    cbn [orElse] in Hin.
    destruct (find (applicable details) rules) as [rule |] eqn:Hfind;
      [| contradiction].
    apply find_some in Hfind. destruct Hfind as [Hrule Happ].
    destruct Hin as [Hin | []]. injection Hin as _ <-.
    exists rule. repeat split; [exact Hrule |].
    unfold applicable in Happ. apply andb_true_iff in Happ.
    destruct Happ as [Happ _]. apply andb_true_iff in Happ. tauto.
  - intros tab [[|] |]; vm_compute; reflexivity.
Qed.

(** C8.  On an event whose [frameId] is not 0 the listener returns at once:
    it reads no storage area, issues no command, and leaves the host as it
    is, whatever the rules stored. *)
Theorem subframe_ignored (details : Details) (h : Host) :
  frameId details <> 0%Z ->
  onBeforeNavigate details h = mkOutcome Returned h []
  /\ reads (trace (onBeforeNavigate details h)) = []
  /\ redirects (trace (onBeforeNavigate details h)) = [].
Proof.
  intros H. rewrite (onBeforeNavigate_subframe details h H).
  repeat split.
Qed.

(** C9, as amended.  When the read of the rule list yields no list, the
    listener issues no command, writes nothing, leaves the host as it is
    and makes no read twice.  When the key is absent it behaves exactly as
    on the empty rule list: it returns, with the completion and the trace
    it has on a host that holds the empty list in the same area.  When a
    read fails, so that its callback is handed no result, the listener
    does not return: it ends on the TypeError of that callback.  When a
    read stalls, the listener returns. *)
Theorem missing_rules_no_redirect (details : Details) (h : Host) :
  frameId details = 0%Z ->
  (forall rules, readRules h <> Delivered (Some rules)) ->
  redirects (trace (onBeforeNavigate details h)) = []
  /\ writes (trace (onBeforeNavigate details h)) = []
  /\ final (onBeforeNavigate details h) = h
  /\ NoDup (reads (trace (onBeforeNavigate details h)))
  /\ (readRules h = Delivered None ->
      onBeforeNavigate details h
      = emit (StorageGet local useSyncKey)
          (emit (StorageGet (currentStorage h) redirectRulesKey)
             (forRules details [] h))
      /\ completion (onBeforeNavigate details h) = Returned
      /\ forall h0,
          readRules h0 = Delivered (Some []) ->
          currentStorage h0 = currentStorage h ->
          completion (onBeforeNavigate details h0)
          = completion (onBeforeNavigate details h)
          /\ trace (onBeforeNavigate details h0)
             = trace (onBeforeNavigate details h))
  /\ (readStatus h = Failing ->
      completion (onBeforeNavigate details h) = Uncaught TypeError)
  /\ (readStatus h = Stalled ->
      completion (onBeforeNavigate details h) = Returned).
Proof.
  intros Hframe Hnone.
  assert (Hnodup : forall storage,
             NoDup [(local, useSyncKey); (storage, redirectRulesKey)]).
  { intros storage. constructor; [| constructor; [intros [] | constructor]].
    intros [E | []]. discriminate E. }
  assert (Hstatus : forall s c,
             readStatus h = s ->
             (s = Failing /\ c = Uncaught TypeError)
             \/ (s = Stalled /\ c = Returned) ->
             completion (onBeforeNavigate details h) = c).
  { intros s c Hs Hc. unfold onBeforeNavigate, getStorage, storage_get.
    rewrite Hframe. cbn [Z.eqb negb area]. unfold readStatus in Hs.
    destruct (status (localArea h)); cbn [property pick useSync].
    - fold (currentStorage h).
      destruct (status (area (currentStorage h) h)); subst s;
        destruct Hc as [[E ->] | [E ->]]; try discriminate E; reflexivity.
    - subst s. destruct Hc as [[E ->] | [E ->]]; try discriminate E.
      reflexivity.
    - subst s. destruct Hc as [[E ->] | [E ->]]; try discriminate E.
      reflexivity. }
  assert (Htail : (readStatus h = Failing ->
                   completion (onBeforeNavigate details h)
                   = Uncaught TypeError)
                  /\ (readStatus h = Stalled ->
                      completion (onBeforeNavigate details h) = Returned)).
  { split; intros Hs; apply (Hstatus _ _ Hs); auto. }
  destruct (readRules h) as [[rules |] |] eqn:Hread.
  - now contradiction (Hnone rules).
  - rewrite (onBeforeNavigate_delivered details h None Hframe Hread) in *.
    do 4 (split; [cbn; auto |]). split; [| exact Htail].
    intros _. split; [reflexivity |]. split; [reflexivity |].
    intros h0 Hread0 Hcur.
    rewrite (onBeforeNavigate_delivered details h0 (Some []) Hframe Hread0).
    rewrite Hcur. split; reflexivity.
  - destruct (onBeforeNavigate_undelivered details h Hframe Hread)
      as [_ [Hf Ht]]. cbv zeta in Hf, Ht.
    split; [destruct Ht as [-> | ->]; reflexivity |].
    split; [destruct Ht as [-> | ->]; reflexivity |].
    split; [exact Hf |]. split.
    + destruct Ht as [-> | ->]; cbn; [| apply Hnodup].
      constructor; [intros [] | constructor].
    + split; [discriminate | exact Htail].
Qed.

End Engine.

(** ** The claims on concrete events *)

(** C1 on two rules that both apply: the command is that of the first. *)
Lemma first_match_wins_witness :
  frameId firstMatchEvent = 0%Z
  /\ readRules (healthyHost None None (Some [firstMatchR1; firstMatchR2]))
     = Delivered (Some [firstMatchR1; firstMatchR2])
  /\ applicable latin1UpperCase firstMatchEvent firstMatchR1 = true
  /\ applicable latin1UpperCase firstMatchEvent firstMatchR2 = true
  /\ redirects
       (trace (onBeforeNavigate latin1UpperCase firstMatchEvent
                 (healthyHost None None
                    (Some [firstMatchR1; firstMatchR2]))))
     = [(7%Z, js "https://b.com")].
Proof.
  do 4 (split; [reflexivity |]).
  apply (proj2 (proj2 (proj2
           (first_match_wins latin1UpperCase firstMatchEvent
              (healthyHost None None (Some [firstMatchR1; firstMatchR2])))))
           firstMatchR1 firstMatchR2);
    try reflexivity; discriminate.
Defined.

(** C2 on scenario A: the pattern with a trailing [/], in another case. *)
Lemma exact_pattern_matches_witness :
  includes (js "https://example.com/old") (cu "*") = false
  /\ forallb isAscii (js "https://EXAMPLE.com/old/") = true
  /\ matchesPattern latin1UpperCase (js "https://EXAMPLE.com/old/")
       (js "https://example.com/old")
     = Ok (asciiCaseEqb (js "https://EXAMPLE.com/old/")
             (js "https://example.com/old")
           || asciiCaseEqb (js "https://EXAMPLE.com/old/")
                (js "https://example.com/old" ++ js "/")).
Proof.
  do 2 (split; [reflexivity |]).
  apply (proj2 (exact_pattern_matches latin1UpperCase
                  (js "https://EXAMPLE.com/old/")
                  (js "https://example.com/old") eq_refl)).
  left. reflexivity.
Defined.

(** The claim C2 as it stands fails beyond ASCII: a URL that differs from
    the pattern in the case of U+00E9 is accepted, and is not equal to it
    up to the case of ASCII letters. *)
Lemma exact_pattern_not_ascii_only :
  includes (js "https://example.com/" ++ [233]) (cu "*") = false
  /\ matchesPattern latin1UpperCase
       (js "https://example.com/" ++ [201])
       (js "https://example.com/" ++ [233])
     = Ok true
  /\ asciiCaseEqb (js "https://example.com/" ++ [201])
       (js "https://example.com/" ++ [233])
     || asciiCaseEqb (js "https://example.com/" ++ [201])
          ((js "https://example.com/" ++ [233]) ++ js "/")
     = false.
Proof. repeat split. Qed.

(** C3 on a URL below the prefix of the pattern. *)
Lemma trailing_star_matches_prefix_witness :
  asciiCaseEqb (js "HTTPS://example.com/") (js "https://example.com/") = true
  /\ existsb isLineTerminator (js "a/b?c=d") = false
  /\ matchesPattern latin1UpperCase
       (js "HTTPS://example.com/" ++ js "a/b?c=d")
       (js "https://example.com/" ++ js "*")
     = Ok true.
Proof.
  do 2 (split; [reflexivity |]).
  apply (trailing_star_matches_prefix latin1UpperCase
           (js "https://example.com/") (js "HTTPS://example.com/")
           (js "a/b?c=d")).
  - right. reflexivity.
  - reflexivity.
Defined.

(** The claim C3 as it stands fails on a line terminator: the URL begins
    with the text before the [*] and is rejected. *)
Lemma trailing_star_line_terminator :
  canonicalEqb latin1UpperCase (js "https://example.com/")
    (js "https://example.com/") = true
  /\ existsb isLineTerminator [10] = true
  /\ matchesPattern latin1UpperCase
       (js "https://example.com/" ++ [10])
       (js "https://example.com/" ++ js "*")
     = Ok false.
Proof. repeat split. Qed.

(** C4 on scenario B followed by a second rule. *)
Lemma loop_rule_skipped_witness :
  enabled (mkRule 1 (js "https://example.com/*")
             (js "https://example.com/new") true) = true
  /\ matchesPattern latin1UpperCase (url loopEvent)
       (js "https://example.com/*") = Ok true
  /\ js "https://example.com/new" = url loopEvent
  /\ trace (forRules latin1UpperCase loopEvent
              (scenarioB ++ [firstMatchR2])
              (healthyHost None None None))
     = [TabsUpdate 7 (js "https://c.com")].
Proof.
  do 3 (split; [reflexivity |]).
  apply (proj2 (proj2
           (loop_rule_skipped latin1UpperCase loopEvent
              (mkRule 1 (js "https://example.com/*")
                 (js "https://example.com/new") true)
              [firstMatchR2] (healthyHost None None None)
              eq_refl eq_refl eq_refl))
           [] firstMatchR2 []);
    reflexivity.
Defined.

(** C5 on a host without the key, and on a host that holds the empty
    list. *)
Lemma onInstalled_idempotent_witness :
  readRules (healthyHost None None None) = Delivered None
  /\ readRules (final (onInstalled (healthyHost None None None)))
     = Delivered (Some [])
  /\ readRules (healthyHost None None (Some [])) = Delivered (Some [])
  /\ final (onInstalled (healthyHost None None (Some [])))
     = healthyHost None None (Some [])
  /\ writes (trace (onInstalled (healthyHost None None (Some [])))) = [].
Proof.
  split; [reflexivity |]. split.
  - apply (proj1 (proj2 (proj2 (proj2
             (onInstalled_idempotent (healthyHost None None None)))))).
    reflexivity.
  - split; [reflexivity |].
    apply (proj1 (proj2 (proj2
             (onInstalled_idempotent (healthyHost None None (Some [])))))).
    reflexivity.
Defined.

(** C6 on scenario C: the command issued comes from the enabled rule. *)
Lemma disabled_rule_skipped_witness :
  frameId (mkDetails 7 (js "https://a.com") 0) = 0%Z
  /\ readRules (healthyHost None None (Some scenarioC))
     = Delivered (Some scenarioC)
  /\ In (7%Z, js "https://b.com")
       (redirects
          (trace (onBeforeNavigate latin1UpperCase
                    (mkDetails 7 (js "https://a.com") 0)
                    (healthyHost None None (Some scenarioC)))))
  /\ exists rule,
       In rule scenarioC /\ enabled rule = true
       /\ js "https://b.com" = redirect rule.
Proof.
  split; [reflexivity |]. split; [reflexivity |].
  split; [left; reflexivity |].
  apply (proj1 (proj2 (proj2 (disabled_rule_skipped latin1UpperCase)))
           (mkDetails 7 (js "https://a.com") 0)
           (healthyHost None None (Some scenarioC)) scenarioC 7%Z).
  - reflexivity.
  - reflexivity.
  - left. reflexivity.
Defined.

(** C7 on a source that [new RegExp] refuses, and on a rule that does not
    match, followed by one that does. *)
Lemma matchesPattern_never_throws_witness :
  RegExp_new (js "*") (js "i") = Throw SyntaxError
  /\ try_catch
       (rbind (RegExp_new (js "*") (js "i"))
              (fun regex => Ok (RegExp_test latin1UpperCase regex
                                  (js "https://a.com"))))
       (fun _ => Ok false)
     = Ok false
  /\ matchesPattern latin1UpperCase (url firstMatchEvent)
       (js "https://example.com/old") = Ok false
  /\ forRules latin1UpperCase firstMatchEvent
       (scenarioA ++ [firstMatchR1]) (healthyHost None None None)
     = forRules latin1UpperCase firstMatchEvent [firstMatchR1]
         (healthyHost None None None).
Proof.
  split; [reflexivity |]. split.
  - apply (proj1 (proj2 (matchesPattern_never_throws latin1UpperCase))
             (js "*") SyntaxError eq_refl).
  - split; [reflexivity |].
    apply (proj2 (proj2 (proj2
             (matchesPattern_never_throws latin1UpperCase)))
             firstMatchEvent
             (mkRule 1 (js "https://example.com/old")
                (js "https://example.com/new") true)
             [firstMatchR1] (healthyHost None None None) eq_refl).
Defined.

(** C8 on an event of a frame inside a page, on a host whose rules would
    redirect it. *)
Lemma subframe_ignored_witness :
  frameId subframeEvent <> 0%Z
  /\ onBeforeNavigate latin1UpperCase subframeEvent
       (healthyHost None None (Some scenarioC))
     = mkOutcome Returned (healthyHost None None (Some scenarioC)) []
  /\ reads (trace (onBeforeNavigate latin1UpperCase subframeEvent
                     (healthyHost None None (Some scenarioC)))) = []
  /\ redirects (trace (onBeforeNavigate latin1UpperCase subframeEvent
                         (healthyHost None None (Some scenarioC)))) = [].
Proof.
  split; [discriminate |].
  apply (subframe_ignored latin1UpperCase subframeEvent
           (healthyHost None None (Some scenarioC))).
  discriminate.
Defined.

(** C9 on a host whose synchronised area fails to answer: no command,
    the host as it was, and the TypeError of the callback. *)
Lemma missing_rules_no_redirect_witness :
  frameId popupEvent = 0%Z
  /\ (forall rules, readRules failingHost <> Delivered (Some rules))
  /\ readStatus failingHost = Failing
  /\ redirects (trace (onBeforeNavigate latin1UpperCase popupEvent
                         failingHost)) = []
  /\ final (onBeforeNavigate latin1UpperCase popupEvent failingHost)
     = failingHost
  /\ completion (onBeforeNavigate latin1UpperCase popupEvent failingHost)
     = Uncaught TypeError.
Proof.
  split; [reflexivity |]. split; [discriminate |].
  split; [reflexivity |].
  destruct (missing_rules_no_redirect latin1UpperCase popupEvent
              failingHost eq_refl
              (fun rules => ltac:(discriminate)))
    as [H1 [_ [H3 [_ [_ [H6 _]]]]]].
  exact (conj H1 (conj H3 (H6 eq_refl))).
Defined.

(** The claim C9 as it stands fails on a read that fails: the read yields
    no rule list, and the listener ends on a TypeError, where it returns on
    a host that holds the empty rule list. *)
Lemma failed_read_ends_on_TypeError :
  readRules failingHost = Undelivered
  /\ completion (onBeforeNavigate latin1UpperCase popupEvent failingHost)
     = Uncaught TypeError
  /\ readRules (healthyHost None None (Some [])) = Delivered (Some [])
  /\ completion (onBeforeNavigate latin1UpperCase popupEvent
                   (healthyHost None None (Some [])))
     = Returned.
Proof. repeat split. Qed.

(** ** The scenarios of the specification *)

Example scenarioA_exact (tab : Z) :
  redirects
    (trace (onBeforeNavigate latin1UpperCase
              (mkDetails tab (js "https://example.com/old") 0)
              (healthyHost None None (Some scenarioA))))
  = [(tab, js "https://example.com/new")].
Proof. reflexivity. Qed.

Example scenarioA_slash (tab : Z) :
  redirects
    (trace (onBeforeNavigate latin1UpperCase
              (mkDetails tab (js "https://example.com/old/") 0)
              (healthyHost None None (Some scenarioA))))
  = [(tab, js "https://example.com/new")].
Proof. reflexivity. Qed.

Example scenarioA_other (tab : Z) :
  trace (onBeforeNavigate latin1UpperCase
           (mkDetails tab (js "https://example.com/old2") 0)
           (healthyHost None None (Some scenarioA)))
  = [StorageGet local useSyncKey; StorageGet sync redirectRulesKey].
Proof. reflexivity. Qed.

Example scenarioB_loop (tab : Z) :
  redirects
    (trace (onBeforeNavigate latin1UpperCase
              (mkDetails tab (js "https://example.com/new") 0)
              (healthyHost None None (Some scenarioB))))
  = [].
Proof. reflexivity. Qed.

Example scenarioC_local (tab : Z) :
  trace (onBeforeNavigate latin1UpperCase
           (mkDetails tab (js "https://a.com") 0)
           (healthyHost (Some false) (Some scenarioC) None))
  = [StorageGet local useSyncKey; StorageGet local redirectRulesKey;
     TabsUpdate tab (js "https://b.com")].
Proof. reflexivity. Qed.

Example regexSource_example :
  regexSource (js "https://example.com/a?b=*")
  = js "^https://example\.com/a\?b=.*$".
Proof. reflexivity. Qed.

Example malformed_source_refused :
  RegExp_new (js "*") (js "i") = Throw SyntaxError.
Proof. reflexivity. Qed.

(** * More of the background script *)

Section Background.

Variable toUpperCase : codeunit -> codeunit.

Lemma asciiUpper_eq_Canonicalize (c d : codeunit) :
  asciiUpper c = asciiUpper d ->
  Canonicalize toUpperCase c = Canonicalize toUpperCase d.
Proof.
  intros H.
  pose proof (asciiCaseEqb_canonicalEqb toUpperCase [c] [d]) as E.
  cbn [asciiCaseEqb canonicalEqb] in E. rewrite H, N.eqb_refl in E.
  specialize (E eq_refl). rewrite andb_true_r in E. now apply N.eqb_eq.
Qed.

Lemma asciiUpper_eq_isLineTerminator (c d : codeunit) :
  asciiUpper c = asciiUpper d -> isLineTerminator c = isLineTerminator d.
Proof.
  unfold asciiUpper. change (cu "a") with 97. change (cu "z") with 122.
  intros H. destruct (N.eq_dec c d) as [-> | Hne]; [reflexivity |].
  assert (Hc : c <> 10 /\ c <> 13 /\ c <> 8232 /\ c <> 8233
               /\ d <> 10 /\ d <> 13 /\ d <> 8232 /\ d <> 8233).
  { destruct (N.leb_spec 97 c), (N.leb_spec c 122),
      (N.leb_spec 97 d), (N.leb_spec d 122); cbn [andb] in H; lia. }
  unfold isLineTerminator.
  repeat match goal with
         | |- context [?x =? ?k] => destruct (N.eqb_spec x k); [lia |]
         end.
  reflexivity.
Qed.

Lemma asciiUpper_eq_star (c d : codeunit) :
  asciiUpper c = asciiUpper d -> (c =? cu "*") = (d =? cu "*").
Proof.
  unfold asciiUpper. change (cu "a") with 97. change (cu "z") with 122.
  change (cu "*") with 42. intros H.
  destruct (N.eqb_spec c 42), (N.eqb_spec d 42); try reflexivity;
    destruct (N.leb_spec 97 c), (N.leb_spec c 122),
      (N.leb_spec 97 d), (N.leb_spec d 122); cbn [andb] in H; lia.
Qed.

(** Two first terms that take the same code units, before two lists of
    terms that match the same inputs. *)
Lemma matchTerms_ext (ic : bool) (a a' : Atom) (q : Quantifier)
  (ts ts' : list Term) :
  (forall c, atomMatches toUpperCase ic a c
             = atomMatches toUpperCase ic a' c) ->
  (forall s atStart, matchTerms toUpperCase ic ts s atStart
                     = matchTerms toUpperCase ic ts' s atStart) ->
  forall s atStart,
    matchTerms toUpperCase ic (Quantified a q :: ts) s atStart
    = matchTerms toUpperCase ic (Quantified a' q :: ts') s atStart.
Proof.
  intros Ha Hts.
  assert (Hstar : forall s atStart,
             matchTerms toUpperCase ic (Quantified a Star :: ts) s atStart
             = matchTerms toUpperCase ic (Quantified a' Star :: ts') s
                 atStart).
  { induction s as [| c s IH]; intros atStart;
      rewrite (matchTerms_star toUpperCase ic a ts _ atStart),
        (matchTerms_star toUpperCase ic a' ts' _ atStart).
    - now rewrite Hts.
    - now rewrite Ha, IH, Hts. }
  intros s atStart. destruct q.
  - destruct s as [| c s]; [reflexivity |].
    cbn [matchTerms]. now rewrite Ha, Hts.
  - apply Hstar.
  - destruct s as [| c s]; [reflexivity |].
    change (atomMatches toUpperCase ic a c
            && matchTerms toUpperCase ic (Quantified a Star :: ts) s false
            = atomMatches toUpperCase ic a' c
              && matchTerms toUpperCase ic (Quantified a' Star :: ts') s
                   false).
    now rewrite Ha, Hstar.
  - destruct s as [| c s]; cbn [matchTerms]; [now rewrite Hts |].
    now rewrite Ha, !Hts.
Qed.

(** The matcher does not tell two inputs apart that are equal up to the
    case of ASCII letters. *)
Lemma matchTerms_input_case (ts : list Term) :
  forall s s' atStart,
    asciiCaseEqb s s' = true ->
    matchTerms toUpperCase true ts s atStart
    = matchTerms toUpperCase true ts s' atStart.
Proof.
  assert (Hatom : forall a c d, asciiUpper c = asciiUpper d ->
             atomMatches toUpperCase true a c
             = atomMatches toUpperCase true a d).
  { intros [x |] c d H; cbn [atomMatches].
    - now rewrite (asciiUpper_eq_Canonicalize c d H).
    - now rewrite (asciiUpper_eq_isLineTerminator c d H). }
  assert (Hcons : forall c s d s',
             asciiCaseEqb (c :: s) (d :: s') = true ->
             asciiUpper c = asciiUpper d /\ asciiCaseEqb s s' = true).
  { intros c s d s' H. cbn [asciiCaseEqb] in H.
    apply andb_true_iff in H. destruct H as [H1 H2].
    now apply N.eqb_eq in H1. }
  induction ts as [| t ts IH]; [reflexivity |].
  assert (Hstar : forall a s s' atStart,
             asciiCaseEqb s s' = true ->
             matchTerms toUpperCase true (Quantified a Star :: ts) s atStart
             = matchTerms toUpperCase true (Quantified a Star :: ts) s'
                 atStart).
  { intros a. induction s as [| c s IHs]; intros [| d s'] atStart H;
      try discriminate H; [reflexivity |].
    rewrite (matchTerms_star toUpperCase true a ts (c :: s) atStart),
      (matchTerms_star toUpperCase true a ts (d :: s') atStart).
    destruct (Hcons _ _ _ _ H) as [Hc Hs].
    rewrite (Hatom a c d Hc), (IHs s' false Hs).
    now rewrite (IH (c :: s) (d :: s') atStart H). }
  intros s s' atStart H. destruct t as [| | a q].
  - cbn [matchTerms]. now rewrite (IH s s' atStart H).
  - destruct s as [| c s], s' as [| d s']; try discriminate H;
      reflexivity.
  - destruct q.
    + destruct s as [| c s], s' as [| d s']; try discriminate H;
        [reflexivity |].
      destruct (Hcons _ _ _ _ H) as [Hc Hs]. cbn [matchTerms].
      now rewrite (Hatom a c d Hc), (IH s s' false Hs).
    + now apply Hstar.
    + destruct s as [| c s], s' as [| d s']; try discriminate H;
        [reflexivity |].
      destruct (Hcons _ _ _ _ H) as [Hc Hs].
      change (atomMatches toUpperCase true a c
              && matchTerms toUpperCase true (Quantified a Star :: ts) s
                   false
              = atomMatches toUpperCase true a d
                && matchTerms toUpperCase true (Quantified a Star :: ts) s'
                     false).
      now rewrite (Hatom a c d Hc), (Hstar a s s' false Hs).
    + destruct s as [| c s], s' as [| d s']; try discriminate H;
        [reflexivity |].
      destruct (Hcons _ _ _ _ H) as [Hc Hs]. cbn [matchTerms].
      rewrite (Hatom a c d Hc), (IH s s' false Hs).
      now rewrite (IH (c :: s) (d :: s') atStart H).
Qed.

Lemma endsWith_star_cons (c : codeunit) (p : jsstring) :
  endsWith (c :: p) (js "*")
  = if isEmpty p then c =? cu "*" else endsWith p (js "*").
Proof.
  apply eq_iff_eq_true. destruct p as [| d q]; cbn [isEmpty].
  - rewrite endsWith_spec, N.eqb_eq. split.
    + intros [pre H]. change [c] with ([] ++ [c]) in H.
      change (js "*") with [cu "*"] in H. apply app_inj_tail in H.
      tauto.
    + intros ->. now exists [].
  - rewrite !endsWith_spec. split.
    + intros [pre H]. destruct pre as [| x pre]; [discriminate H |].
      injection H as _ H. now exists pre.
    + intros [pre H]. exists (c :: pre). cbn [app]. now rewrite H.
Qed.

(** The terms of two patterns equal up to the case of ASCII letters match
    the same inputs. *)
Lemma compiled_pattern_case (p p' : jsstring) :
  asciiCaseEqb p p' = true ->
  forall s atStart,
    matchTerms toUpperCase true (tl (compiled p)) s atStart
    = matchTerms toUpperCase true (tl (compiled p')) s atStart.
Proof.
  unfold compiled. cbn [tl]. revert p'.
  induction p as [| c p IH]; intros [| d p'] H; try discriminate H;
    [reflexivity |].
  cbn [asciiCaseEqb] in H. apply andb_true_iff in H. destruct H as [Hc Hp].
  apply N.eqb_eq in Hc. rewrite !endsWith_star_cons.
  cbn [bodyTerms map app]. fold (bodyTerms p). fold (bodyTerms p').
  unfold termOf. rewrite <- (asciiUpper_eq_star c d Hc).
  assert (Hrest : forall s atStart,
             matchTerms toUpperCase true
               (bodyTerms p
                ++ (if if isEmpty p then c =? cu "*"
                       else endsWith p (js "*")
                    then [AssertEnd]
                    else [Quantified (PatternCharacter (cu "/")) Optional;
                          AssertEnd])) s atStart
             = matchTerms toUpperCase true
                 (bodyTerms p'
                  ++ (if if isEmpty p' then c =? cu "*"
                         else endsWith p' (js "*")
                      then [AssertEnd]
                      else [Quantified (PatternCharacter (cu "/")) Optional;
                            AssertEnd])) s atStart).
  { destruct p as [| x p], p' as [| y p']; try discriminate Hp;
      [reflexivity |].
    cbn [isEmpty]. apply (IH (y :: p') Hp). }
  destruct (c =? cu "*") eqn:Hstar.
  - apply matchTerms_ext; [reflexivity | exact Hrest].
  - apply matchTerms_ext; [| exact Hrest].
    intros e. cbn [atomMatches].
    now rewrite (asciiUpper_eq_Canonicalize c d Hc).
Qed.

(** X1.  [matchesPattern] does not tell apart two URLs, nor two patterns,
    that are equal up to the case of ASCII letters, whatever wildcards the
    patterns hold. *)
Theorem matching_ignores_ascii_case (u u' p p' : jsstring) :
  asciiCaseEqb u u' = true -> asciiCaseEqb p p' = true ->
  matchesPattern toUpperCase u p = matchesPattern toUpperCase u' p'.
Proof.
  intros Hu Hp. rewrite !matchesPattern_compiled. f_equal.
  rewrite (compiled_pattern_case p p' Hp).
  now apply matchTerms_input_case.
Qed.

Lemma matchTerms_dot_star_end_eq (s : jsstring) (atStart : bool) :
  matchTerms toUpperCase true [Quantified Dot Star; AssertEnd] s atStart
  = negb (existsb isLineTerminator s).
Proof.
  revert atStart. induction s as [| c s IH]; intros atStart;
    [reflexivity |].
  rewrite (matchTerms_star toUpperCase true Dot [AssertEnd] _ atStart).
  rewrite (IH false). cbn [atomMatches matchTerms existsb].
  now rewrite orb_false_r, negb_orb.
Qed.

(** X2.  For a pattern made of a text without [*] followed by one [*],
    [matchesPattern] accepts exactly the URLs that begin with that text, for
    the comparison of the matcher, and hold no line terminator after it. *)
Theorem trailing_star_exact (pre u : jsstring) :
  includes pre (cu "*") = false ->
  matchesPattern toUpperCase u (pre ++ js "*")
  = Ok (canonicalEqb toUpperCase (firstn (List.length pre) u) pre
        && negb (existsb isLineTerminator (skipn (List.length pre) u))).
Proof.
  intros Hpre. rewrite matchesPattern_compiled. unfold compiled. cbn [tl].
  assert (Hend : endsWith (pre ++ js "*") (js "*") = true).
  { apply endsWith_spec. now exists pre. }
  rewrite Hend. unfold bodyTerms. rewrite map_app, <- app_assoc.
  fold (bodyTerms pre). f_equal.
  change (map termOf (js "*") ++ [AssertEnd])
    with [Quantified Dot Star; AssertEnd].
  clear Hend.
  enough (H : forall atStart,
             matchTerms toUpperCase true
               (bodyTerms pre ++ [Quantified Dot Star; AssertEnd]) u atStart
             = canonicalEqb toUpperCase (firstn (List.length pre) u) pre
               && negb (existsb isLineTerminator
                          (skipn (List.length pre) u))) by apply H.
  revert u. induction pre as [| c pre IH]; intros u atStart.
  - cbn [bodyTerms map app List.length firstn skipn canonicalEqb andb].
    apply matchTerms_dot_star_end_eq.
  - cbn [includes existsb] in Hpre. apply orb_false_iff in Hpre.
    destruct Hpre as [Hc Hpre]. fold (includes pre (cu "*")) in Hpre.
    cbn [bodyTerms map app]. fold (bodyTerms pre). unfold termOf at 1.
    rewrite N.eqb_sym, Hc.
    destruct u as [| d u]; [reflexivity |].
    cbn [matchTerms atomMatches List.length firstn skipn canonicalEqb].
    rewrite (IH Hpre u false), (N.eqb_sym (Canonicalize toUpperCase c)).
    now rewrite andb_assoc.
Qed.

Lemma Canonicalize_slash (d : codeunit) :
  (Canonicalize toUpperCase d =? Canonicalize toUpperCase (cu "/")) = true ->
  d = cu "/".
Proof.
  rewrite N.eqb_sym, (Canonicalize_eqb_ascii toUpperCase (cu "/") d eq_refl).
  change (asciiUpper (cu "/")) with 47. change (cu "/") with 47.
  rewrite N.eqb_eq. unfold asciiUpper.
  change (cu "a") with 97. change (cu "z") with 122.
  destruct (N.leb_spec 97 d), (N.leb_spec d 122); cbn [andb]; lia.
Qed.

Lemma trailing_star_accepts (pre head rest : jsstring) :
  canonicalEqb toUpperCase head pre = true ->
  existsb isLineTerminator rest = false ->
  matchesPattern toUpperCase (head ++ rest) (pre ++ js "*") = Ok true.
Proof.
  intros Hhead Hrest. rewrite matchesPattern_compiled. unfold compiled.
  cbn [tl].
  assert (Hend : endsWith (pre ++ js "*") (js "*") = true).
  { apply endsWith_spec. now exists pre. }
  rewrite Hend. unfold bodyTerms. rewrite map_app, <- app_assoc.
  f_equal. apply matchTerms_prefix; [exact Hhead |].
  intros atStart. now apply matchTerms_dot_star_end.
Qed.

(** X3.  A [*] inside a pattern stands for any run of code units without
    line terminator: when the pattern is [pre], one [*] and a text [suf]
    without [*], a URL is accepted when it is made of a string equal to
    [pre], any such run, and a string equal to [suf] or to [suf] followed by
    one [/] (equal for the comparison of the matcher, the [*] of [pre]
    taken as they stand). *)
Theorem inner_star_matches (pre suf head mid last : jsstring) :
  includes suf (cu "*") = false ->
  canonicalEqb toUpperCase head pre = true ->
  existsb isLineTerminator mid = false ->
  canonicalEqb toUpperCase last suf
  || canonicalEqb toUpperCase last (suf ++ js "/") = true ->
  matchesPattern toUpperCase (head ++ mid ++ last) (pre ++ js "*" ++ suf)
  = Ok true.
Proof.
  intros Hsuf Hhead Hmid Hlast.
  destruct suf as [| x suf'].
  - rewrite app_nil_r.
    apply trailing_star_accepts; [exact Hhead |].
    rewrite existsb_app, Hmid. cbn [orb].
    change (js "/") with [cu "/"] in Hlast. cbn [app] in Hlast.
    destruct last as [| d [| e last]]; try reflexivity.
    + cbn [canonicalEqb orb] in Hlast. rewrite andb_true_r in Hlast.
      apply Canonicalize_slash in Hlast. subst d. reflexivity.
    + cbn [canonicalEqb orb] in Hlast. rewrite andb_false_r in Hlast.
      discriminate Hlast.
  - remember (x :: suf') as suf eqn:Esuf.
    rewrite matchesPattern_compiled. unfold compiled. cbn [tl].
    assert (Hend : endsWith (pre ++ js "*" ++ suf) (js "*") = false).
    { apply not_true_is_false. intros H. apply endsWith_spec in H.
      destruct H as [q H].
      assert (Hin : includes suf (cu "*") = true).
      { subst suf. destruct suf' as [| y suf''] using rev_ind.
        - change (pre ++ js "*" ++ [x]) with (pre ++ js "*" ++ [] ++ [x]) in H.
          rewrite !app_assoc in H. change (js "*") with [cu "*"] in H.
          apply app_inj_tail in H. destruct H as [_ ->]. reflexivity.
        - change (x :: suf'' ++ [y]) with ((x :: suf'') ++ [y]) in H.
          rewrite !app_assoc in H. change (js "*") with [cu "*"] in H.
          apply app_inj_tail in H. destruct H as [_ ->].
          change (x :: suf'' ++ [cu "*"]) with ((x :: suf'') ++ [cu "*"]).
          unfold includes. rewrite existsb_app. cbn [existsb].
          rewrite N.eqb_refl. now rewrite orb_true_r. }
      congruence. }
    rewrite Hend. unfold bodyTerms. rewrite !map_app, <- !app_assoc.
    fold (bodyTerms pre). fold (bodyTerms suf). f_equal.
    apply matchTerms_prefix; [exact Hhead |].
    change (map termOf (js "*") ++ ?t) with (Quantified Dot Star :: t).
    clear Hhead. induction mid as [| c mid IH]; intros atStart.
    + rewrite matchTerms_star, (matchTerms_literal toUpperCase suf last).
      * cbn [app]. now rewrite Hlast, orb_true_r.
      * exact Hsuf.
    + cbn [existsb] in Hmid. apply orb_false_iff in Hmid.
      destruct Hmid as [Hc Hmid]. cbn [app].
      rewrite (matchTerms_star toUpperCase true Dot _ _ atStart).
      cbn [atomMatches]. rewrite Hc, (IH Hmid false). reflexivity.
Qed.

(** X4.  The match is anchored at the start of the URL.  The empty
    pattern accepts the empty URL and the URL made of one [/], and no
    other.  A pattern that is not empty and does not begin with [*]
    accepts neither the empty URL nor a URL whose first code unit is not
    the first code unit of the pattern for the comparison of the
    matcher. *)
Theorem anchored_at_start (u : jsstring) :
  matchesPattern toUpperCase u []
  = Ok (isEmpty u || canonicalEqb toUpperCase u (js "/"))
  /\ (forall c p,
        (c =? cu "*") = false ->
        matchesPattern toUpperCase [] (c :: p) = Ok false)
  /\ (forall c p d rest,
        (c =? cu "*") = false ->
        u = d :: rest ->
        Canonicalize toUpperCase d <> Canonicalize toUpperCase c ->
        matchesPattern toUpperCase u (c :: p) = Ok false).
Proof.
  split; [| split].
  - rewrite matchesPattern_compiled. unfold compiled.
    change (endsWith [] (js "*")) with false. cbn [tl bodyTerms map app].
    f_equal.
    etransitivity;
      [exact (matchTerms_literal toUpperCase [] u true eq_refl) |].
    cbn [app]. destruct u; reflexivity.
  - intros c p Hc. rewrite matchesPattern_compiled. unfold compiled.
    cbn [tl bodyTerms map app]. unfold termOf at 1. now rewrite Hc.
  - intros c p d rest Hc -> Hd. rewrite matchesPattern_compiled.
    unfold compiled. cbn [tl bodyTerms map app]. unfold termOf at 1.
    rewrite Hc. cbn [matchTerms atomMatches].
    apply N.eqb_neq in Hd. now rewrite N.eqb_sym, Hd.
Qed.

(** X5.  Every command of the listener is for the tab of the event, comes
    from a top-level event, and is the redirect of a stored rule that is
    enabled and whose pattern matches the URL of the event; its target is
    never that URL. *)
Theorem redirect_never_to_same_url (details : Details) (h : Host)
  (tab : Z) (target : jsstring) :
  In (tab, target) (redirects (trace (onBeforeNavigate toUpperCase details h)))
  ->
  frameId details = 0%Z /\ tab = tabId details /\ target <> url details
  /\ exists rules rule,
      readRules h = Delivered (Some rules) /\ In rule rules
      /\ enabled rule = true /\ target = redirect rule
      /\ matchesPattern toUpperCase (url details) (pattern rule) = Ok true.
Proof.
  intros Hin.
  destruct (Z.eq_dec (frameId details) 0) as [Hframe | Hframe].
  - destruct (readRules h) as [v |] eqn:Hread.
    + rewrite (redirects_delivered toUpperCase details h v Hframe Hread)
        in Hin.
      destruct (find (applicable toUpperCase details) (orElse v []))
        as [rule |] eqn:Hfind; [| contradiction].
      destruct Hin as [Hin | []]. injection Hin as <- <-.
      apply find_some in Hfind. destruct Hfind as [Hrule Happ].
      unfold applicable in Happ. apply andb_true_iff in Happ.
      destruct Happ as [Happ Hloop]. apply andb_true_iff in Happ.
      destruct Happ as [Hen Hmatch].
      repeat split; try assumption.
      * intros E. rewrite E, jsstring_eqb_refl in Hloop. discriminate Hloop.
      * destruct v as [rules |]; [| contradiction].
        exists rules, rule. repeat split; try assumption.
        destruct (matchesPattern toUpperCase (url details) (pattern rule))
          as [[|] | e]; try discriminate Hmatch. reflexivity.
    + rewrite (redirects_undelivered toUpperCase details h Hframe Hread)
        in Hin. contradiction.
  - rewrite (onBeforeNavigate_subframe toUpperCase details h Hframe) in Hin.
    contradiction.
Qed.

(** X6.  The listener only reads: it leaves the host as it is and writes
    nothing, and it reads the flag in the local area first, and then at
    most the rule list in the area the flag selects. *)
Theorem listener_only_reads (details : Details) (h : Host) :
  final (onBeforeNavigate toUpperCase details h) = h
  /\ writes (trace (onBeforeNavigate toUpperCase details h)) = []
  /\ (reads (trace (onBeforeNavigate toUpperCase details h)) = []
      \/ reads (trace (onBeforeNavigate toUpperCase details h))
         = [(local, useSyncKey)]
      \/ reads (trace (onBeforeNavigate toUpperCase details h))
         = [(local, useSyncKey); (currentStorage h, redirectRulesKey)]).
Proof.
  destruct (Z.eq_dec (frameId details) 0) as [Hframe | Hframe].
  - destruct (readRules h) as [v |] eqn:Hread.
    + rewrite (onBeforeNavigate_delivered toUpperCase details h v Hframe
                 Hread), forRules_find.
      destruct (find (applicable toUpperCase details) (orElse v []));
        cbn; auto.
    + destruct (onBeforeNavigate_undelivered toUpperCase details h Hframe
                  Hread) as [_ [Hf Ht]]. cbv zeta in Hf, Ht.
      rewrite Hf. destruct Ht as [-> | ->]; cbn; auto.
  - rewrite (onBeforeNavigate_subframe toUpperCase details h Hframe).
    cbn; auto.
Qed.

(** X7.  The listener depends on the host through the flag and the state
    of the local area and through the area the flag selects only: on two
    hosts that agree on these it completes the same way, with the same
    trace, whatever the other area holds. *)
Theorem listener_ignores_other_area (details : Details) (h h' : Host) :
  status (localArea h) = status (localArea h') ->
  useSync (items (localArea h)) = useSync (items (localArea h')) ->
  status (area (currentStorage h) h) = status (area (currentStorage h) h') ->
  rulesIn (currentStorage h) h = rulesIn (currentStorage h) h' ->
  completion (onBeforeNavigate toUpperCase details h)
  = completion (onBeforeNavigate toUpperCase details h')
  /\ trace (onBeforeNavigate toUpperCase details h)
     = trace (onBeforeNavigate toUpperCase details h').
Proof.
  intros Hs Hf Hs' Hr.
  assert (Hcur : currentStorage h' = currentStorage h).
  { unfold currentStorage. now rewrite Hf. }
  unfold onBeforeNavigate, getStorage, storage_get.
  destruct (negb (frameId details =? 0)%Z); [split; reflexivity |].
  cbn [area]. rewrite <- Hs.
  destruct (status (localArea h)); try (split; reflexivity).
  cbn [property pick useSync]. rewrite <- Hf. fold (currentStorage h).
  rewrite <- Hs'.
  destruct (status (area (currentStorage h) h));
    try (split; reflexivity).
  cbn [property pick redirectRules]. unfold rulesIn in Hr. rewrite <- Hr.
  rewrite !forRules_find. split; reflexivity.
Qed.

(** X8.  The initializer never takes a rule away nor changes the flag: an
    area that holds a rule list holds the same list after it, and the area
    the flag selects is the same. *)
Theorem onInstalled_keeps_rules (h : Host) :
  currentStorage (final (onInstalled h)) = currentStorage h
  /\ useSync (items (localArea (final (onInstalled h))))
     = useSync (items (localArea h))
  /\ (forall storage rules,
        rulesIn storage h = Some rules ->
        rulesIn storage (final (onInstalled h)) = Some rules)
  /\ redirects (trace (onInstalled h)) = [].
Proof.
  destruct h as [[[flag localRules] localStatus]
                   [[syncFlag syncRules] syncStatus]].
  destruct flag as [[|] |], localStatus, syncStatus, localRules, syncRules;
    cbn; repeat split; intros [|] rules H; cbn in *;
    try discriminate H; exact H.
Qed.

End Background.

(** * The popup *)

Section PopupProperties.

Variable toUpperCase : codeunit -> codeunit.
Variable URL_parses : jsstring -> bool.

(** The host after a write of the rule list in the area it reads. *)
Lemma write_delivered (h : Host) (v : option (list Rule))
  (rules : list Rule) :
  readRules h = Delivered v ->
  readRules (final (storage_set (currentStorage h) rules h))
  = Delivered (Some rules)
  /\ currentStorage (final (storage_set (currentStorage h) rules h))
     = currentStorage h
  /\ rulesIn (otherStorage (currentStorage h))
       (final (storage_set (currentStorage h) rules h))
     = rulesIn (otherStorage (currentStorage h)) h
  /\ status (area (currentStorage h) h) = Healthy.
Proof.
  destruct h as [[[flag localRules] localStatus]
                   [[syncFlag syncRules] syncStatus]].
  destruct flag as [[|] |], localStatus, syncStatus; cbn;
    intros H; try discriminate H; repeat split.
Qed.

(** The three reads that open every edit of the rule list. *)
Lemma popup_read_rules (k : StorageArea -> list Rule -> PopupAction)
  (h : Host) (v : option (list Rule)) :
  readRules h = Delivered v ->
  Popup.getStorage (fun storage =>
    popup_get storage redirectRulesKey (fun result =>
      popup_property result (fun result =>
        k storage (orElse (redirectRules result) [])))) h
  = record (Chrome (StorageGet local useSyncKey))
      (record (Chrome (StorageGet (currentStorage h) redirectRulesKey))
         (k (currentStorage h) (orElse v []) h)).
Proof.
  intros Hread. unfold Popup.getStorage, popup_get. cbn [area].
  unfold readRules in Hread.
  destruct (status (localArea h)); try discriminate Hread.
  cbn [popup_property pick useSync]. fold (currentStorage h).
  destruct (status (area (currentStorage h) h)); try discriminate Hread.
  injection Hread as <-. reflexivity.
Qed.

Lemma displayRules_delivered (h : Host) (v : option (list Rule)) :
  readRules h = Delivered v ->
  Popup.displayRules h
  = mkPopupOutcome Returned h
      [Chrome (StorageGet local useSyncKey);
       Chrome (StorageGet (currentStorage h) redirectRulesKey);
       RulesListed (orElse v [])].
Proof.
  intros Hread.
  exact (popup_read_rules (fun _ rules => show (RulesListed rules)) h v
           Hread).
Qed.

(** A write of the rule list followed by what the popup shows: the
    effects [shown], then the list as it is read back. *)
Lemma popup_set_shown (h : Host) (v : option (list Rule))
  (rules : list Rule) (callback : PopupAction) (shown : list PopupEffect) :
  readRules h = Delivered v ->
  (forall h', callback h' = mkPopupOutcome Returned h' shown) ->
  popup_set (currentStorage h) rules (andThen callback Popup.displayRules) h
  = mkPopupOutcome Returned
      (final (storage_set (currentStorage h) rules h))
      (Chrome (StorageSet (currentStorage h) rules)
       :: shown
       ++ [Chrome (StorageGet local useSyncKey);
           Chrome (StorageGet (currentStorage h) redirectRulesKey);
           RulesListed rules]).
Proof.
  intros Hread Hcallback.
  destruct (write_delivered h v rules Hread) as [Hread' [Hcur [_ Hst]]].
  unfold popup_set. rewrite Hst. unfold andThen. rewrite Hcallback.
  cbn [popupCompletion popupFinal popupTrace].
  rewrite (displayRules_delivered _ _ Hread'), Hcur. reflexivity.
Qed.

Lemma popup_set_delivered (h : Host) (v : option (list Rule))
  (rules : list Rule) (callback : PopupAction) :
  readRules h = Delivered v ->
  popup_set (currentStorage h) rules callback h
  = record (Chrome (StorageSet (currentStorage h) rules))
      (callback (final (storage_set (currentStorage h) rules h))).
Proof.
  intros Hread.
  destruct (write_delivered h v rules Hread) as [_ [_ [_ Hst]]].
  unfold popup_set. now rewrite Hst.
Qed.

Lemma addRule_delivered (p r : jsstring) (now : Z) (h : Host)
  (v : option (list Rule)) :
  isEmpty (trim p) = false -> isEmpty (trim r) = false ->
  URL_parses (trim r) = true -> readRules h = Delivered v ->
  Popup.addRule URL_parses p r now h
  = mkPopupOutcome Returned
      (final (storage_set (currentStorage h)
                (orElse v [] ++ [mkRule now (trim p) (trim r) true]) h))
      [Chrome (StorageGet local useSyncKey);
       Chrome (StorageGet (currentStorage h) redirectRulesKey);
       Chrome (StorageSet (currentStorage h)
                 (orElse v [] ++ [mkRule now (trim p) (trim r) true]));
       StatusShown "successAddRule" false;
       InputsCleared;
       Chrome (StorageGet local useSyncKey);
       Chrome (StorageGet (currentStorage h) redirectRulesKey);
       RulesListed (orElse v [] ++ [mkRule now (trim p) (trim r) true])].
Proof.
  intros Hp Hr Hurl Hread. unfold Popup.addRule.
  rewrite Hp, Hr, Hurl. cbn [orb negb].
  rewrite (popup_read_rules
             (fun storage rules =>
                popup_set storage
                  (rules ++ [mkRule now (trim p) (trim r) true])
                  (andThen (Popup.showStatus "successAddRule" false)
                     (andThen (show InputsCleared) Popup.displayRules)))
             h v Hread).
  rewrite (popup_set_delivered h v _ _ Hread).
  destruct (write_delivered h v
              (orElse v [] ++ [mkRule now (trim p) (trim r) true]) Hread)
    as [Hread' [Hcur _]].
  unfold andThen, Popup.showStatus, show.
  cbn [popupCompletion popupFinal popupTrace].
  rewrite (displayRules_delivered _ _ Hread'), Hcur. reflexivity.
Qed.

Lemma deleteRule_delivered (ruleId : option Z) (h : Host)
  (v : option (list Rule)) :
  readRules h = Delivered v ->
  Popup.deleteRule ruleId h
  = mkPopupOutcome Returned
      (final (storage_set (currentStorage h)
                (withoutId ruleId (orElse v [])) h))
      [Chrome (StorageGet local useSyncKey);
       Chrome (StorageGet (currentStorage h) redirectRulesKey);
       Chrome (StorageSet (currentStorage h)
                 (withoutId ruleId (orElse v [])));
       StatusShown "successDeleteRule" false;
       Chrome (StorageGet local useSyncKey);
       Chrome (StorageGet (currentStorage h) redirectRulesKey);
       RulesListed (withoutId ruleId (orElse v []))].
Proof.
  intros Hread.
  etransitivity;
    [exact (popup_read_rules
              (fun storage rules =>
                 popup_set storage (withoutId ruleId rules)
                   (andThen (Popup.showStatus "successDeleteRule" false)
                      Popup.displayRules))
              h v Hread) |].
  cbv beta.
  rewrite (popup_set_shown h v _ (Popup.showStatus "successDeleteRule" false)
             [StatusShown "successDeleteRule" false] Hread);
    reflexivity.
Qed.

Lemma toggleRule_delivered (ruleId : option Z) (isEnabled : bool)
  (h : Host) (v : option (list Rule)) :
  readRules h = Delivered v ->
  Popup.toggleRule ruleId isEnabled h
  = match findIndex (hasId ruleId) (orElse v []) with
    | Some i =>
      mkPopupOutcome Returned
        (final (storage_set (currentStorage h)
                  (updateAt i (setEnabled isEnabled) (orElse v [])) h))
        [Chrome (StorageGet local useSyncKey);
         Chrome (StorageGet (currentStorage h) redirectRulesKey);
         Chrome (StorageSet (currentStorage h)
                   (updateAt i (setEnabled isEnabled) (orElse v [])));
         StatusShown (if isEnabled then "successEnableRule"
                      else "successDisableRule") false;
         Chrome (StorageGet local useSyncKey);
         Chrome (StorageGet (currentStorage h) redirectRulesKey);
         RulesListed (updateAt i (setEnabled isEnabled) (orElse v []))]
    | None =>
      mkPopupOutcome Returned h
        [Chrome (StorageGet local useSyncKey);
         Chrome (StorageGet (currentStorage h) redirectRulesKey)]
    end.
Proof.
  intros Hread.
  etransitivity;
    [exact (popup_read_rules
              (fun storage rules =>
                 match findIndex (hasId ruleId) rules with
                 | Some i =>
                   popup_set storage
                     (updateAt i (setEnabled isEnabled) rules)
                     (andThen
                        (Popup.showStatus
                           (if isEnabled then "successEnableRule"
                            else "successDisableRule") false)
                        Popup.displayRules)
                 | None => finished
                 end)
              h v Hread) |].
  cbv beta.
  destruct (findIndex (hasId ruleId) (orElse v [])) as [i |];
    [| reflexivity].
  rewrite (popup_set_shown h v _
             (Popup.showStatus (if isEnabled then "successEnableRule"
                                else "successDisableRule") false)
             [StatusShown (if isEnabled then "successEnableRule"
                           else "successDisableRule") false] Hread);
    reflexivity.
Qed.

Lemma find_app_last {A} (q : A -> bool) (l : list A) (x : A) :
  find q (l ++ [x])
  = match find q l with
    | Some y => Some y
    | None => if q x then Some x else None
    end.
Proof.
  induction l as [| y l IH]; cbn [app find]; [reflexivity |].
  destruct (q y); [reflexivity | exact IH].
Qed.

Lemma findIndex_first {A} (q : A -> bool) (before : list A) (x : A)
  (after : list A) :
  existsb q before = false -> q x = true ->
  findIndex q (before ++ x :: after) = Some (List.length before).
Proof.
  intros Hb Hx. induction before as [| y before IH]; cbn [app findIndex].
  - now rewrite Hx.
  - cbn [existsb] in Hb. apply orb_false_iff in Hb. destruct Hb as [Hy Hb].
    rewrite Hy, (IH Hb). reflexivity.
Qed.

Lemma findIndex_none {A} (q : A -> bool) (l : list A) :
  existsb q l = false -> findIndex q l = None.
Proof.
  induction l as [| y l IH]; [reflexivity |]. cbn [existsb findIndex].
  intros H. apply orb_false_iff in H. destruct H as [Hy Hl].
  now rewrite Hy, (IH Hl).
Qed.

Lemma updateAt_middle {A} (f : A -> A) (before : list A) (x : A)
  (after : list A) :
  updateAt (List.length before) f (before ++ x :: after)
  = before ++ f x :: after.
Proof.
  induction before as [| y before IH]; [reflexivity |].
  cbn [List.length app updateAt]. now rewrite IH.
Qed.

Lemma ids_updateAt (i : nat) (isEnabled : bool) (rules : list Rule) :
  ids (updateAt i (setEnabled isEnabled) rules) = ids rules.
Proof.
  revert i. induction rules as [| rule rules IH]; intros [| i];
    try reflexivity.
  cbn [updateAt ids map]. f_equal. apply IH.
Qed.

Lemma withoutId_fresh (n : Z) (rules : list Rule) :
  ~ In n (ids rules) -> withoutId (Some n) rules = rules.
Proof.
  induction rules as [| rule rules IH]; [reflexivity |].
  cbn [ids map In withoutId filter strictEq]. intros H.
  destruct (Z.eqb_spec (id rule) n) as [E | _]; [tauto |].
  cbn [negb]. f_equal. apply IH. tauto.
Qed.

Lemma withoutId_None (rules : list Rule) : withoutId None rules = rules.
Proof.
  unfold withoutId. induction rules as [| rule rules IH]; [reflexivity |].
  cbn [filter strictEq negb] in *. now rewrite IH.
Qed.

Lemma withoutId_idem (ruleId : option Z) (rules : list Rule) :
  withoutId ruleId (withoutId ruleId rules) = withoutId ruleId rules.
Proof.
  unfold withoutId. induction rules as [| rule rules IH]; [reflexivity |].
  cbn [filter].
  destruct (negb (strictEq (id rule) ruleId)) eqn:Hq; [| exact IH].
  cbn [filter]. now rewrite Hq, IH.
Qed.

Lemma withoutId_not_In (n : Z) (rules : list Rule) :
  ~ In n (ids (withoutId (Some n) rules)).
Proof.
  unfold ids, withoutId. rewrite in_map_iff. intros [rule [E Hin]].
  apply filter_In in Hin. destruct Hin as [_ H]. cbn [strictEq] in H.
  rewrite E, Z.eqb_refl in H. discriminate H.
Qed.

Lemma NoDup_ids_filter (q : Rule -> bool) (rules : list Rule) :
  NoDup (ids rules) -> NoDup (ids (filter q rules)).
Proof.
  induction rules as [| rule rules IH]; [trivial |].
  cbn [ids map filter]. intros H. inversion H as [| x l Hx Hl]; subst.
  destruct (q rule); [| now apply IH].
  cbn [ids map]. constructor; [| now apply IH].
  intros Hin. apply Hx. unfold ids in *. rewrite in_map_iff in *.
  destruct Hin as [r [E Hr]]. exists r. split; [exact E |].
  apply filter_In in Hr. tauto.
Qed.

(** With ids all different, the enabled rules left by switching a rule
    off are those left by deleting it. *)
Lemma disabled_or_deleted (n : Z) (rules : list Rule) :
  NoDup (ids rules) ->
  filter enabled
    match findIndex (hasId (Some n)) rules with
    | Some i => updateAt i (setEnabled false) rules
    | None => rules
    end
  = filter enabled (withoutId (Some n) rules).
Proof.
  induction rules as [| rule rules IH]; [reflexivity |].
  cbn [ids map]. intros H. inversion H as [| x l Hx Hl]; subst.
  cbn [findIndex withoutId filter]. unfold hasId at 1. cbn [strictEq].
  fold (withoutId (Some n) rules).
  destruct (Z.eqb_spec (id rule) n) as [E | E]; cbn [negb].
  - subst n. cbn [updateAt filter setEnabled enabled].
    change (filter (fun r => negb (id r =? id rule)%Z) rules)
      with (withoutId (Some (id rule)) rules).
    now rewrite (withoutId_fresh (id rule) rules Hx).
  - specialize (IH Hl).
    destruct (findIndex (hasId (Some n)) rules) as [i |];
      cbn [option_map updateAt filter]; now rewrite IH.
Qed.

Lemma toggleRule_first (ruleId : option Z) (isEnabled : bool) (h : Host)
  (before : list Rule) (rule : Rule) (after : list Rule) :
  readRules h = Delivered (Some (before ++ rule :: after)) ->
  existsb (hasId ruleId) before = false -> hasId ruleId rule = true ->
  readRules (popupFinal (Popup.toggleRule ruleId isEnabled h))
  = Delivered (Some (before ++ setEnabled isEnabled rule :: after)).
Proof.
  intros Hread Hbefore Hrule.
  rewrite (toggleRule_delivered ruleId isEnabled h _ Hread). cbn [orElse].
  rewrite (findIndex_first _ before rule after Hbefore Hrule).
  cbn [popupFinal]. rewrite updateAt_middle.
  now destruct (write_delivered h _
                  (before ++ setEnabled isEnabled rule :: after) Hread).
Qed.

Lemma wellFormed_updateAt (i : nat) (isEnabled : bool)
  (rules : list Rule) :
  wellFormed URL_parses (updateAt i (setEnabled isEnabled) rules)
  = wellFormed URL_parses rules.
Proof.
  unfold wellFormed. revert i.
  induction rules as [| rule rules IH]; intros [| i]; try reflexivity.
  cbn [updateAt forallb]. now rewrite IH.
Qed.

Lemma wellFormed_withoutId (ruleId : option Z) (rules : list Rule) :
  wellFormed URL_parses rules = true ->
  wellFormed URL_parses (withoutId ruleId rules) = true.
Proof.
  unfold wellFormed, withoutId. rewrite !forallb_forall.
  intros H rule Hin. apply filter_In in Hin. now apply H.
Qed.

Lemma trimStart_not_white (s : jsstring) :
  match trimStart s with
  | [] => True
  | c :: _ => isWhiteSpace c = false
  end.
Proof.
  induction s as [| c s IH]; [exact I |]. cbn [trimStart].
  destruct (isWhiteSpace c) eqn:E; [exact IH | exact E].
Qed.

Lemma trimStart_split (s : jsstring) :
  exists l, s = l ++ trimStart s /\ forallb isWhiteSpace l = true.
Proof.
  induction s as [| c s [l [E Hl]]]; [now exists [] |]. cbn [trimStart].
  destruct (isWhiteSpace c) eqn:Ec.
  - exists (c :: l). cbn [app forallb]. rewrite Ec, Hl. now rewrite <- E.
  - now exists [].
Qed.

Lemma trimStart_snoc (l : jsstring) (c : codeunit) :
  isWhiteSpace c = false -> trimStart (l ++ [c]) = trimStart l ++ [c].
Proof.
  intros Hc. induction l as [| d l IH]; cbn [app trimStart].
  - now rewrite Hc.
  - destruct (isWhiteSpace d); [exact IH | reflexivity].
Qed.

(** X9.  [addRule] stores nothing when, once trimmed, the pattern or the
    redirect is empty, or when [new URL] refuses the redirect: it makes no
    storage call, leaves the host as it is and shows the error message of
    the case. *)
Theorem addRule_refuses_bad_input (p r : jsstring) (now : Z) (h : Host) :
  isEmpty (trim p) || isEmpty (trim r) || negb (URL_parses (trim r)) = true
  ->
  Popup.addRule URL_parses p r now h
  = mkPopupOutcome Returned h
      [StatusShown (if isEmpty (trim p) || isEmpty (trim r)
                    then "errorBothRequired" else "errorInvalidUrl") true].
Proof.
  intros H. unfold Popup.addRule.
  destruct (isEmpty (trim p) || isEmpty (trim r)); [reflexivity |].
  cbn [orb] in H. now rewrite H.
Qed.

(** X10.  With a pattern and a redirect that are not empty once trimmed
    and a redirect that [new URL] takes, [addRule] puts one rule at the end
    of the list of the area the flag selects: the trimmed pattern and
    redirect, enabled, with the clock reading as id.  The rules before it,
    the flag and the other area are as they were, and the popup shows the
    new list. *)
Theorem addRule_appends (p r : jsstring) (now : Z) (h : Host)
  (v : option (list Rule)) :
  isEmpty (trim p) = false -> isEmpty (trim r) = false ->
  URL_parses (trim r) = true -> readRules h = Delivered v ->
  readRules (popupFinal (Popup.addRule URL_parses p r now h))
  = Delivered (Some (orElse v [] ++ [mkRule now (trim p) (trim r) true]))
  /\ currentStorage (popupFinal (Popup.addRule URL_parses p r now h))
     = currentStorage h
  /\ rulesIn (otherStorage (currentStorage h))
       (popupFinal (Popup.addRule URL_parses p r now h))
     = rulesIn (otherStorage (currentStorage h)) h
  /\ popupCompletion (Popup.addRule URL_parses p r now h) = Returned
  /\ popupTrace (Popup.addRule URL_parses p r now h)
     = [Chrome (StorageGet local useSyncKey);
        Chrome (StorageGet (currentStorage h) redirectRulesKey);
        Chrome (StorageSet (currentStorage h)
                  (orElse v [] ++ [mkRule now (trim p) (trim r) true]));
        StatusShown "successAddRule" false;
        InputsCleared;
        Chrome (StorageGet local useSyncKey);
        Chrome (StorageGet (currentStorage h) redirectRulesKey);
        RulesListed (orElse v [] ++ [mkRule now (trim p) (trim r) true])].
Proof.
  intros Hp Hr Hurl Hread.
  rewrite (addRule_delivered p r now h v Hp Hr Hurl Hread).
  cbn [popupFinal popupCompletion popupTrace].
  destruct (write_delivered h v
              (orElse v [] ++ [mkRule now (trim p) (trim r) true]) Hread)
    as [H1 [H2 [H3 _]]].
  repeat split; assumption.
Qed.

(** X11.  A rule added by [addRule] comes last for the listener: an event
    that was redirected before is redirected the same way after, and the
    new rule is applied only to an event that no earlier rule applies
    to. *)
Theorem addRule_keeps_earlier_redirects (p r : jsstring) (now : Z)
  (h : Host) (v : option (list Rule)) (details : Details) :
  isEmpty (trim p) = false -> isEmpty (trim r) = false ->
  URL_parses (trim r) = true -> readRules h = Delivered v ->
  frameId details = 0%Z ->
  redirects
    (trace (onBeforeNavigate toUpperCase details
              (popupFinal (Popup.addRule URL_parses p r now h))))
  = match redirects (trace (onBeforeNavigate toUpperCase details h)) with
    | command :: _ => [command]
    | [] =>
      if applicable toUpperCase details (mkRule now (trim p) (trim r) true)
      then [(tabId details, trim r)]
      else []
    end.
Proof.
  intros Hp Hr Hurl Hread Hframe.
  rewrite (addRule_delivered p r now h v Hp Hr Hurl Hread).
  cbn [popupFinal].
  destruct (write_delivered h v
              (orElse v [] ++ [mkRule now (trim p) (trim r) true]) Hread)
    as [Hread' _].
  rewrite (redirects_delivered toUpperCase details _ _ Hframe Hread').
  rewrite (redirects_delivered toUpperCase details h v Hframe Hread).
  cbn [orElse]. rewrite find_app_last.
  destruct (find (applicable toUpperCase details) (orElse v []));
    [reflexivity |].
  destruct (applicable toUpperCase details
              (mkRule now (trim p) (trim r) true)); reflexivity.
Qed.

(** X12.  [deleteRule] writes the list without the rules whose id is the
    number read, all of them when several rules share it, and keeps the
    other rules in their order; when no number was read (NaN) it writes
    the list back as it is.  Done twice, it leaves the host as done
    once. *)
Theorem deleteRule_removes_every_rule_with_id (ruleId : option Z)
  (h : Host) (v : option (list Rule)) :
  readRules h = Delivered v ->
  readRules (popupFinal (Popup.deleteRule ruleId h))
  = Delivered (Some (withoutId ruleId (orElse v [])))
  /\ (forall n, ruleId = Some n ->
        ~ In n (ids (withoutId ruleId (orElse v []))))
  /\ (forall rule,
        In rule (withoutId ruleId (orElse v []))
        <-> In rule (orElse v []) /\ hasId ruleId rule = false)
  /\ (ruleId = None -> withoutId ruleId (orElse v []) = orElse v [])
  /\ popupFinal (Popup.deleteRule ruleId
                   (popupFinal (Popup.deleteRule ruleId h)))
     = popupFinal (Popup.deleteRule ruleId h).
Proof.
  intros Hread. rewrite (deleteRule_delivered ruleId h v Hread).
  cbn [popupFinal].
  destruct (write_delivered h v (withoutId ruleId (orElse v [])) Hread)
    as [Hread' [Hcur _]].
  split; [exact Hread' |]. split; [| split; [| split]].
  - intros n ->. apply withoutId_not_In.
  - intros rule. unfold withoutId, hasId. rewrite filter_In.
    now rewrite negb_true_iff.
  - intros ->. apply withoutId_None.
  - rewrite (deleteRule_delivered ruleId _ _ Hread'). cbn [popupFinal orElse].
    rewrite Hcur, withoutId_idem. clear.
    destruct h as [[[flag localRules] localStatus]
                     [[syncFlag syncRules] syncStatus]].
    destruct flag as [[|] |], localStatus, syncStatus; reflexivity.
Qed.

(** X13.  [toggleRule] changes the first rule whose id is the number read,
    and its [enabled] field only: the rules before and after it, those
    with the same id included, its pattern, its redirect and the ids of
    the list are as they were. *)
Theorem toggleRule_sets_first_rule_only (ruleId : option Z)
  (isEnabled : bool) (h : Host) (v : option (list Rule))
  (before : list Rule) (rule : Rule) (after : list Rule) :
  readRules h = Delivered v ->
  orElse v [] = before ++ rule :: after ->
  existsb (hasId ruleId) before = false -> hasId ruleId rule = true ->
  readRules (popupFinal (Popup.toggleRule ruleId isEnabled h))
  = Delivered
      (Some (before
             ++ mkRule (id rule) (pattern rule) (redirect rule) isEnabled
             :: after))
  /\ ids (before
          ++ mkRule (id rule) (pattern rule) (redirect rule) isEnabled
          :: after)
     = ids (orElse v []).
Proof.
  intros Hread Hsplit Hbefore Hrule.
  rewrite (toggleRule_delivered ruleId isEnabled h v Hread), Hsplit.
  rewrite (findIndex_first _ before rule after Hbefore Hrule).
  cbn [popupFinal]. rewrite updateAt_middle.
  destruct (write_delivered h v
              (before ++ setEnabled isEnabled rule :: after) Hread)
    as [Hread' _].
  split; [exact Hread' |].
  unfold ids. rewrite !map_app. reflexivity.
Qed.

(** X14.  When no rule has the number read as id, or no number was read,
    [toggleRule] writes nothing and shows nothing: it makes its two reads
    and leaves the host as it is. *)
Theorem toggleRule_unknown_id_does_nothing (ruleId : option Z)
  (isEnabled : bool) (h : Host) (v : option (list Rule)) :
  readRules h = Delivered v ->
  existsb (hasId ruleId) (orElse v []) = false ->
  Popup.toggleRule ruleId isEnabled h
  = mkPopupOutcome Returned h
      [Chrome (StorageGet local useSyncKey);
       Chrome (StorageGet (currentStorage h) redirectRulesKey)].
Proof.
  intros Hread Hnone.
  rewrite (toggleRule_delivered ruleId isEnabled h v Hread).
  now rewrite (findIndex_none _ _ Hnone).
Qed.

(** X15.  Switching a rule and switching it back restores the list: after
    [toggleRule] with any state and [toggleRule] with the state the rule
    had, the list read is the list there was. *)
Theorem toggleRule_back_restores (ruleId : option Z) (isEnabled : bool)
  (h : Host) (before : list Rule) (rule : Rule) (after : list Rule) :
  readRules h = Delivered (Some (before ++ rule :: after)) ->
  existsb (hasId ruleId) before = false -> hasId ruleId rule = true ->
  readRules
    (popupFinal
       (Popup.toggleRule ruleId (enabled rule)
          (popupFinal (Popup.toggleRule ruleId isEnabled h))))
  = Delivered (Some (before ++ rule :: after)).
Proof.
  intros Hread Hbefore Hrule.
  pose proof (toggleRule_first ruleId isEnabled h before rule after Hread
                Hbefore Hrule) as H1.
  rewrite (toggleRule_first ruleId (enabled rule) _ before
             (setEnabled isEnabled rule) after H1 Hbefore Hrule).
  destruct rule; reflexivity.
Qed.

(** X16.  With ids all different, switching a rule off and deleting it
    are the same to the listener: after either, every top-level event gets
    the same commands. *)
Theorem disabling_like_deleting (n : Z) (h : Host)
  (v : option (list Rule)) (details : Details) :
  readRules h = Delivered v -> NoDup (ids (orElse v [])) ->
  frameId details = 0%Z ->
  redirects
    (trace (onBeforeNavigate toUpperCase details
              (popupFinal (Popup.toggleRule (Some n) false h))))
  = redirects
      (trace (onBeforeNavigate toUpperCase details
                (popupFinal (Popup.deleteRule (Some n) h)))).
Proof.
  intros Hread Hnodup Hframe.
  assert (Henabled : forall rule,
             applicable toUpperCase details rule = true ->
             enabled rule = true).
  { intros rule H. unfold applicable in H. apply andb_true_iff in H.
    destruct H as [H _]. apply andb_true_iff in H. tauto. }
  rewrite (deleteRule_delivered (Some n) h v Hread). cbn [popupFinal].
  destruct (write_delivered h v (withoutId (Some n) (orElse v [])) Hread)
    as [Hdel _].
  rewrite (redirects_delivered toUpperCase details _ _ Hframe Hdel).
  cbn [orElse].
  rewrite <- (find_filter _ enabled (withoutId (Some n) (orElse v []))
                Henabled).
  rewrite <- (disabled_or_deleted n (orElse v []) Hnodup).
  rewrite (toggleRule_delivered (Some n) false h v Hread).
  destruct (findIndex (hasId (Some n)) (orElse v [])) as [i |];
    cbn [popupFinal].
  - destruct (write_delivered h v
                (updateAt i (setEnabled false) (orElse v [])) Hread)
      as [Htog _].
    rewrite (redirects_delivered toUpperCase details _ _ Hframe Htog).
    cbn [orElse]. now rewrite (find_filter _ enabled _ Henabled).
  - rewrite (redirects_delivered toUpperCase details h v Hframe Hread).
    now rewrite (find_filter _ enabled _ Henabled).
Qed.

(** X17.  When the clock reading is the id of no stored rule, deleting the
    rule [addRule] has just added gives the list back as it was. *)
Theorem addRule_then_deleteRule_restores (p r : jsstring) (now : Z)
  (h : Host) (v : option (list Rule)) :
  isEmpty (trim p) = false -> isEmpty (trim r) = false ->
  URL_parses (trim r) = true -> readRules h = Delivered v ->
  ~ In now (ids (orElse v [])) ->
  readRules
    (popupFinal
       (Popup.deleteRule (Some now)
          (popupFinal (Popup.addRule URL_parses p r now h))))
  = Delivered (Some (orElse v [])).
Proof.
  intros Hp Hr Hurl Hread Hfresh.
  rewrite (addRule_delivered p r now h v Hp Hr Hurl Hread).
  cbn [popupFinal].
  destruct (write_delivered h v
              (orElse v [] ++ [mkRule now (trim p) (trim r) true]) Hread)
    as [Hread' _].
  rewrite (deleteRule_delivered (Some now) _ _ Hread'). cbn [popupFinal].
  destruct (write_delivered _ _
              (withoutId (Some now)
                 (orElse (Some (orElse v []
                                ++ [mkRule now (trim p) (trim r) true])) []))
              Hread') as [Hread'' _].
  rewrite Hread''. cbn [orElse]. unfold withoutId at 1.
  rewrite filter_app. fold (withoutId (Some now) (orElse v [])).
  rewrite (withoutId_fresh now _ Hfresh).
  cbn [filter strictEq id]. rewrite Z.eqb_refl. cbn [negb].
  now rewrite app_nil_r.
Qed.

(** X18.  The popup keeps the rule list well formed: when every stored
    rule has a pattern and a redirect that are not empty and a redirect
    that [new URL] takes, this still holds after [addRule] on any input,
    after [deleteRule] and after [toggleRule]. *)
Theorem popup_keeps_rules_well_formed (h : Host) (v : option (list Rule)) :
  readRules h = Delivered v ->
  wellFormed URL_parses (orElse v []) = true ->
  (forall p r now,
      exists v',
        readRules (popupFinal (Popup.addRule URL_parses p r now h))
        = Delivered v'
        /\ wellFormed URL_parses (orElse v' []) = true)
  /\ (forall ruleId,
        exists v',
          readRules (popupFinal (Popup.deleteRule ruleId h)) = Delivered v'
          /\ wellFormed URL_parses (orElse v' []) = true)
  /\ (forall ruleId isEnabled,
        exists v',
          readRules (popupFinal (Popup.toggleRule ruleId isEnabled h))
          = Delivered v'
          /\ wellFormed URL_parses (orElse v' []) = true).
Proof.
  intros Hread Hwf. split; [| split].
  - intros p r now.
    destruct (isEmpty (trim p) || isEmpty (trim r)
              || negb (URL_parses (trim r))) eqn:Hbad.
    + exists v. unfold Popup.addRule.
      destruct (isEmpty (trim p) || isEmpty (trim r));
        [now split |].
      cbn [orb] in Hbad. rewrite Hbad. now split.
    + apply orb_false_iff in Hbad. destruct Hbad as [Hbad Hurl].
      apply orb_false_iff in Hbad. destruct Hbad as [Hp Hr].
      apply negb_false_iff in Hurl.
      rewrite (addRule_delivered p r now h v Hp Hr Hurl Hread).
      cbn [popupFinal]. eexists. split.
      * exact (proj1 (write_delivered h v
                        (orElse v [] ++ [mkRule now (trim p) (trim r) true])
                        Hread)).
      * cbn [orElse]. unfold wellFormed in *. rewrite forallb_app, Hwf.
        cbn [forallb pattern redirect]. now rewrite Hp, Hr, Hurl.
  - intros ruleId. rewrite (deleteRule_delivered ruleId h v Hread).
    cbn [popupFinal]. eexists. split.
    + exact (proj1 (write_delivered h v (withoutId ruleId (orElse v []))
                      Hread)).
    + cbn [orElse]. now apply wellFormed_withoutId.
  - intros ruleId isEnabled.
    rewrite (toggleRule_delivered ruleId isEnabled h v Hread).
    destruct (findIndex (hasId ruleId) (orElse v [])) as [i |];
      cbn [popupFinal].
    + eexists. split.
      * exact (proj1 (write_delivered h v
                        (updateAt i (setEnabled isEnabled) (orElse v []))
                        Hread)).
      * cbn [orElse]. now rewrite wellFormed_updateAt.
    + now exists v.
Qed.

(** X19.  With ids all different before, they are all different after
    [deleteRule] and after [toggleRule]; after [addRule] they are all
    different exactly when the clock reading is the id of no stored
    rule. *)
Theorem ids_stay_unique (h : Host) (v : option (list Rule)) :
  readRules h = Delivered v -> NoDup (ids (orElse v [])) ->
  (forall ruleId v',
      readRules (popupFinal (Popup.deleteRule ruleId h)) = Delivered v' ->
      NoDup (ids (orElse v' [])))
  /\ (forall ruleId isEnabled v',
        readRules (popupFinal (Popup.toggleRule ruleId isEnabled h))
        = Delivered v' ->
        NoDup (ids (orElse v' [])))
  /\ (forall p r now v',
        isEmpty (trim p) = false -> isEmpty (trim r) = false ->
        URL_parses (trim r) = true ->
        readRules (popupFinal (Popup.addRule URL_parses p r now h))
        = Delivered v' ->
        (NoDup (ids (orElse v' [])) <-> ~ In now (ids (orElse v [])))).
Proof.
  intros Hread Hnodup. split; [| split].
  - intros ruleId v'. rewrite (deleteRule_delivered ruleId h v Hread).
    cbn [popupFinal].
    destruct (write_delivered h v (withoutId ruleId (orElse v [])) Hread)
      as [-> _].
    intros E. injection E as <-. cbn [orElse].
    now apply NoDup_ids_filter.
  - intros ruleId isEnabled v'.
    rewrite (toggleRule_delivered ruleId isEnabled h v Hread).
    destruct (findIndex (hasId ruleId) (orElse v [])) as [i |];
      cbn [popupFinal].
    + destruct (write_delivered h v
                  (updateAt i (setEnabled isEnabled) (orElse v [])) Hread)
        as [-> _].
      intros E. injection E as <-. cbn [orElse]. now rewrite ids_updateAt.
    + rewrite Hread. intros E. injection E as <-. exact Hnodup.
  - intros p r now v' Hp Hr Hurl.
    rewrite (addRule_delivered p r now h v Hp Hr Hurl Hread).
    cbn [popupFinal].
    destruct (write_delivered h v
                (orElse v [] ++ [mkRule now (trim p) (trim r) true]) Hread)
      as [-> _].
    intros E. injection E as <-. cbn [orElse]. unfold ids.
    rewrite map_app. cbn [map id]. fold (ids (orElse v [])). split.
    + intros H Hin. apply NoDup_remove_2 in H. apply H.
      rewrite app_nil_r. exact Hin.
    + intros Hfresh. apply NoDup_rev in Hnodup.
      rewrite <- (rev_involutive (ids (orElse v []) ++ [now])).
      apply NoDup_rev. rewrite rev_app_distr. cbn [rev app].
      constructor; [| exact Hnodup].
      intros Hin. apply Hfresh. now apply in_rev.
Qed.

(** X20.  [toggleStorageType] writes the flag only: afterwards the area
    selected is the one asked for, the rule lists of the two areas are as
    they were (no rule is carried over), and the list read is that of the
    area selected.  Switching back to the area selected before gives the
    former list again. *)
Theorem toggleStorageType_switches_area (useSyncValue : bool) (h : Host) :
  status (localArea h) = Healthy ->
  currentStorage (popupFinal (Popup.toggleStorageType useSyncValue h))
  = (if useSyncValue then sync else local)
  /\ (forall storage,
        rulesIn storage (popupFinal (Popup.toggleStorageType useSyncValue h))
        = rulesIn storage h)
  /\ (status (syncArea h) = Healthy ->
      readRules (popupFinal (Popup.toggleStorageType useSyncValue h))
      = Delivered (rulesIn (if useSyncValue then sync else local) h))
  /\ readRules
       (popupFinal
          (Popup.toggleStorageType
             (notFalse (useSync (items (localArea h))))
             (popupFinal (Popup.toggleStorageType useSyncValue h))))
     = readRules h.
Proof.
  destruct h as [[[flag localRules] localStatus]
                   [[syncFlag syncRules] syncStatus]].
  cbn [localArea status]. intros ->.
  destruct useSyncValue, flag as [[|] |], syncStatus; cbn;
    repeat split; intros; try discriminate;
    try (destruct storage; reflexivity); reflexivity.
Qed.

(** X21.  [displayRules] only reads, and the list it shows is the list the
    listener walks through: a top-level event gets the command of the
    first applicable rule of the list shown. *)
Theorem displayRules_lists_evaluated_rules (h : Host) :
  popupFinal (Popup.displayRules h) = h
  /\ (forall e, In e (popupTrace (Popup.displayRules h)) ->
       match e with
       | Chrome (StorageGet _ _) | RulesListed _ => True
       | _ => False
       end)
  /\ (forall rules details,
        In (RulesListed rules) (popupTrace (Popup.displayRules h)) ->
        frameId details = 0%Z ->
        redirects (trace (onBeforeNavigate toUpperCase details h))
        = match find (applicable toUpperCase details) rules with
          | Some rule => [command details rule]
          | None => []
          end).
Proof.
  destruct (readRules h) as [v |] eqn:Hread.
  - rewrite (displayRules_delivered h v Hread).
    cbn [popupFinal popupTrace]. split; [reflexivity |]. split.
    + intros e [<- | [<- | [<- | []]]]; exact I.
    + intros rules details [E | [E | [E | []]]] Hframe;
        try discriminate E.
      injection E as <-.
      exact (redirects_delivered toUpperCase details h v Hframe Hread).
  - revert Hread.
    destruct h as [[[flag localRules] localStatus]
                     [[syncFlag syncRules] syncStatus]].
    destruct flag as [[|] |], localStatus, syncStatus; cbn;
      intros Hread; try discriminate Hread;
      (split; [reflexivity |]); split;
      try (intros e He; repeat destruct He as [<- | He]; tauto);
      intros rules details He;
      repeat destruct He as [E | He]; try discriminate E; tauto.
Qed.

(** X22.  The state of the switch lasts: after [toggleStorageType] with a
    state, [initStorageSettings] reads the flag, checks the switch to that
    state and labels it so. *)
Theorem switch_state_persists (useSyncValue : bool) (h : Host) :
  status (localArea h) = Healthy ->
  exists rest,
    popupTrace
      (Popup.initStorageSettings
         (popupFinal (Popup.toggleStorageType useSyncValue h)))
    = Chrome (StorageGet local useSyncKey)
      :: ToggleChecked useSyncValue :: LabelUpdated useSyncValue :: rest.
Proof.
  destruct h as [[[flag localRules] localStatus]
                   [[syncFlag syncRules] syncStatus]].
  cbn [localArea status]. intros ->.
  destruct useSyncValue, flag as [[|] |], syncStatus; cbn; eexists;
    reflexivity.
Qed.

(** [trim] takes white space away at both ends and nothing else. *)
Lemma trim_spec (s : jsstring) :
  (exists l r,
      s = l ++ trim s ++ r
      /\ forallb isWhiteSpace l = true /\ forallb isWhiteSpace r = true)
  /\ match trim s with
     | [] => True
     | c :: _ => isWhiteSpace c = false
     end
  /\ match rev (trim s) with
     | [] => True
     | c :: _ => isWhiteSpace c = false
     end.
Proof.
  unfold trim, trimEnd.
  destruct (trimStart_split s) as [l [El Hl]].
  destruct (trimStart_split (rev (trimStart s))) as [r [Er Hr]].
  split; [| split].
  - exists l, (rev r). split; [| split; [exact Hl |]].
    + rewrite <- rev_app_distr, <- Er, rev_involutive. exact El.
    + rewrite forallb_forall in *. intros c Hc. apply Hr.
      now apply in_rev.
  - pose proof (trimStart_not_white s) as Hs.
    destruct (trimStart s) as [| c t]; [exact I |].
    change (rev (c :: t)) with (rev t ++ [c]).
    rewrite (trimStart_snoc (rev t) c Hs), rev_app_distr. exact Hs.
  - rewrite rev_involutive. apply trimStart_not_white.
Qed.

(** X23.  The rule [addRule] stores holds the two inputs without the white
    space around them: its pattern and its redirect are what is left of
    the inputs once white space is taken away at both ends, they are not
    empty and they neither begin nor end with white space. *)
Theorem addRule_stores_trimmed_text (p r : jsstring) (now : Z) (h : Host)
  (v : option (list Rule)) :
  isEmpty (trim p) = false -> isEmpty (trim r) = false ->
  URL_parses (trim r) = true -> readRules h = Delivered v ->
  exists rule,
    readRules (popupFinal (Popup.addRule URL_parses p r now h))
    = Delivered (Some (orElse v [] ++ [rule]))
    /\ id rule = now /\ enabled rule = true
    /\ (exists l l', p = l ++ pattern rule ++ l'
                     /\ forallb isWhiteSpace l = true
                     /\ forallb isWhiteSpace l' = true)
    /\ (exists l l', r = l ++ redirect rule ++ l'
                     /\ forallb isWhiteSpace l = true
                     /\ forallb isWhiteSpace l' = true)
    /\ match pattern rule, rev (pattern rule) with
       | c :: _, c' :: _ => isWhiteSpace c = false /\ isWhiteSpace c' = false
       | _, _ => False
       end
    /\ match redirect rule, rev (redirect rule) with
       | c :: _, c' :: _ => isWhiteSpace c = false /\ isWhiteSpace c' = false
       | _, _ => False
       end.
Proof.
  intros Hp Hr Hurl Hread.
  assert (Hends : forall s,
             isEmpty (trim s) = false ->
             match trim s, rev (trim s) with
             | c :: _, c' :: _ =>
               isWhiteSpace c = false /\ isWhiteSpace c' = false
             | _, _ => False
             end).
  { intros s Hs. destruct (trim_spec s) as [_ [Hfirst Hlast]].
    destruct (trim s) as [| c middle] eqn:E; [discriminate Hs |].
    destruct (rev (c :: middle)) as [| c' t] eqn:Erev; [| now split].
    apply (f_equal (@List.length _)) in Erev.
    rewrite length_rev in Erev. discriminate Erev. }
  exists (mkRule now (trim p) (trim r) true).
  rewrite (addRule_delivered p r now h v Hp Hr Hurl Hread).
  cbn [popupFinal id enabled pattern redirect].
  split; [exact (proj1 (write_delivered h v _ Hread)) |].
  split; [reflexivity |]. split; [reflexivity |].
  split; [exact (proj1 (trim_spec p)) |].
  split; [exact (proj1 (trim_spec r)) |].
  split; [exact (Hends p Hp) | exact (Hends r Hr)].
Qed.

(** X24.  An edit needs its read: when a read of the rule list fails or
    stalls, [addRule], [deleteRule] and [toggleRule] write nothing and
    leave the host as it is, so that a list that could not be read is
    not written over. *)
Theorem edits_need_a_read (h : Host) :
  readRules h = Undelivered ->
  (forall p r now,
      popupFinal (Popup.addRule URL_parses p r now h) = h
      /\ forall storage rules,
          ~ In (Chrome (StorageSet storage rules))
               (popupTrace (Popup.addRule URL_parses p r now h)))
  /\ (forall ruleId,
        popupFinal (Popup.deleteRule ruleId h) = h
        /\ forall storage rules,
            ~ In (Chrome (StorageSet storage rules))
                 (popupTrace (Popup.deleteRule ruleId h)))
  /\ (forall ruleId isEnabled,
        popupFinal (Popup.toggleRule ruleId isEnabled h) = h
        /\ forall storage rules,
            ~ In (Chrome (StorageSet storage rules))
                 (popupTrace (Popup.toggleRule ruleId isEnabled h))).
Proof.
  destruct h as [[[flag localRules] localStatus]
                   [[syncFlag syncRules] syncStatus]].
  intros Hread. split; [| split].
  - intros p r now. unfold Popup.addRule.
    destruct (isEmpty (trim p) || isEmpty (trim r)).
    + split; [reflexivity |]. intros storage rules [E | []]. discriminate E.
    + destruct (negb (URL_parses (trim r))).
      * split; [reflexivity |]. intros storage rules [E | []].
        discriminate E.
      * revert Hread.
        destruct flag as [[|] |], localStatus, syncStatus; cbn;
          intros Hread; try discriminate Hread;
          (split; [reflexivity |]); intros storage rules He;
          repeat destruct He as [E | He]; try discriminate E; tauto.
  - intros ruleId. revert Hread.
    destruct flag as [[|] |], localStatus, syncStatus; cbn;
      intros Hread; try discriminate Hread;
      (split; [reflexivity |]); intros storage rules He;
      repeat destruct He as [E | He]; try discriminate E; tauto.
  - intros ruleId isEnabled. revert Hread.
    destruct flag as [[|] |], localStatus, syncStatus; cbn;
      intros Hread; try discriminate Hread;
      (split; [reflexivity |]); intros storage rules He;
      repeat destruct He as [E | He]; try discriminate E; tauto.
Qed.

End PopupProperties.

(** ** The other properties on concrete inputs *)

Lemma matching_ignores_ascii_case_witness :
  asciiCaseEqb (js "HTTPS://A.COM/x") (js "https://a.com/X") = true
  /\ asciiCaseEqb (js "https://A.com/*") (js "HTTPS://a.COM/*") = true
  /\ matchesPattern latin1UpperCase (js "HTTPS://A.COM/x")
       (js "https://A.com/*")
     = matchesPattern latin1UpperCase (js "https://a.com/X")
         (js "HTTPS://a.COM/*").
Proof.
  do 2 (split; [reflexivity |]).
  apply (matching_ignores_ascii_case latin1UpperCase); reflexivity.
Defined.

Lemma trailing_star_exact_witness :
  includes (js "https://a.com/") (cu "*") = false
  /\ matchesPattern latin1UpperCase (js "https://A.com/x")
       (js "https://a.com/" ++ js "*")
     = Ok true.
Proof.
  split; [reflexivity |].
  apply (trailing_star_exact latin1UpperCase (js "https://a.com/")
           (js "https://A.com/x")).
  reflexivity.
Defined.

Lemma inner_star_matches_witness :
  includes (js ".example.com/old") (cu "*") = false
  /\ canonicalEqb latin1UpperCase (js "https://") (js "https://") = true
  /\ existsb isLineTerminator (js "www") = false
  /\ matchesPattern latin1UpperCase
       (js "https://" ++ js "www" ++ js ".example.com/old/")
       (js "https://" ++ js "*" ++ js ".example.com/old")
     = Ok true.
Proof.
  do 3 (split; [reflexivity |]).
  apply (inner_star_matches latin1UpperCase (js "https://")
           (js ".example.com/old") (js "https://") (js "www")
           (js ".example.com/old/"));
    reflexivity.
Defined.

Lemma anchored_at_start_witness :
  (cu "e" =? cu "*") = false
  /\ js "https://example.com/" = cu "h" :: js "ttps://example.com/"
  /\ Canonicalize latin1UpperCase (cu "h")
     <> Canonicalize latin1UpperCase (cu "e")
  /\ matchesPattern latin1UpperCase (js "https://example.com/")
       (cu "e" :: js "xample.com/*")
     = Ok false.
Proof.
  split; [reflexivity |]. split; [reflexivity |]. split; [discriminate |].
  apply (proj2 (proj2 (anchored_at_start latin1UpperCase
                         (js "https://example.com/")))
           (cu "e") (js "xample.com/*") (cu "h")
           (js "ttps://example.com/"));
    [reflexivity | reflexivity | discriminate].
Defined.

Lemma redirect_never_to_same_url_witness :
  In (7%Z, js "https://b.com")
     (redirects (trace (onBeforeNavigate latin1UpperCase popupEvent
                          popupHost)))
  /\ frameId popupEvent = 0%Z /\ 7%Z = tabId popupEvent
  /\ js "https://b.com" <> url popupEvent.
Proof.
  split; [left; reflexivity |].
  destruct (redirect_never_to_same_url latin1UpperCase popupEvent popupHost
              7%Z (js "https://b.com") (or_introl eq_refl))
    as [H1 [H2 [H3 _]]].
  exact (conj H1 (conj H2 H3)).
Defined.

Lemma listener_ignores_other_area_witness :
  status (localArea popupHost)
  = status (localArea (healthyHost None (Some scenarioA) (Some scenarioC)))
  /\ rulesIn (currentStorage popupHost) popupHost
     = rulesIn (currentStorage popupHost)
         (healthyHost None (Some scenarioA) (Some scenarioC))
  /\ trace (onBeforeNavigate latin1UpperCase popupEvent popupHost)
     = trace (onBeforeNavigate latin1UpperCase popupEvent
                (healthyHost None (Some scenarioA) (Some scenarioC))).
Proof.
  do 2 (split; [reflexivity |]).
  apply (listener_ignores_other_area latin1UpperCase popupEvent popupHost
           (healthyHost None (Some scenarioA) (Some scenarioC)));
    reflexivity.
Defined.

Lemma onInstalled_keeps_rules_witness :
  rulesIn sync popupHost = Some scenarioC
  /\ rulesIn sync (final (onInstalled popupHost)) = Some scenarioC.
Proof.
  split; [reflexivity |].
  apply (proj1 (proj2 (proj2 (onInstalled_keeps_rules popupHost)))).
  reflexivity.
Defined.

Lemma addRule_refuses_bad_input_witness :
  isEmpty (trim (js "   ")) || isEmpty (trim newRedirect)
  || negb (httpsOnly (trim newRedirect)) = true
  /\ Popup.addRule httpsOnly (js "   ") newRedirect clock popupHost
     = mkPopupOutcome Returned popupHost
         [StatusShown "errorBothRequired" true].
Proof.
  split; [reflexivity |].
  apply (addRule_refuses_bad_input httpsOnly (js "   ") newRedirect clock
           popupHost).
  reflexivity.
Defined.

Lemma addRule_appends_witness :
  isEmpty (trim newPattern) = false /\ isEmpty (trim newRedirect) = false
  /\ httpsOnly (trim newRedirect) = true
  /\ readRules popupHost = Delivered (Some scenarioC)
  /\ readRules
       (popupFinal (Popup.addRule httpsOnly newPattern newRedirect clock
                      popupHost))
     = Delivered
         (Some (scenarioC
                ++ [mkRule clock (js "https://c.com/*") (js "https://d.com")
                      true])).
Proof.
  do 4 (split; [reflexivity |]).
  apply (proj1 (addRule_appends httpsOnly newPattern newRedirect clock
                  popupHost (Some scenarioC)
                  eq_refl eq_refl eq_refl eq_refl)).
Defined.

Lemma addRule_keeps_earlier_redirects_witness :
  isEmpty (trim newPattern) = false /\ isEmpty (trim newRedirect) = false
  /\ httpsOnly (trim newRedirect) = true
  /\ readRules popupHost = Delivered (Some scenarioC)
  /\ frameId popupEvent = 0%Z
  /\ redirects
       (trace (onBeforeNavigate latin1UpperCase popupEvent
                 (popupFinal (Popup.addRule httpsOnly newPattern newRedirect
                                clock popupHost))))
     = [(7%Z, js "https://b.com")].
Proof.
  do 5 (split; [reflexivity |]).
  apply (addRule_keeps_earlier_redirects latin1UpperCase httpsOnly
           newPattern newRedirect clock popupHost (Some scenarioC)
           popupEvent eq_refl eq_refl eq_refl eq_refl eq_refl).
Defined.

Lemma deleteRule_removes_every_rule_with_id_witness :
  readRules popupHost = Delivered (Some scenarioC)
  /\ readRules (popupFinal (Popup.deleteRule (Some 1%Z) popupHost))
     = Delivered
         (Some [mkRule 2 (js "https://a.com") (js "https://b.com") true]).
Proof.
  split; [reflexivity |].
  apply (proj1 (deleteRule_removes_every_rule_with_id (Some 1%Z) popupHost
                  (Some scenarioC) eq_refl)).
Defined.

Lemma toggleRule_sets_first_rule_only_witness :
  readRules popupHost = Delivered (Some scenarioC)
  /\ scenarioC
     = [mkRule 1 (js "*") (js "https://x.com") false]
       ++ mkRule 2 (js "https://a.com") (js "https://b.com") true :: []
  /\ existsb (hasId (Some 2%Z))
       [mkRule 1 (js "*") (js "https://x.com") false] = false
  /\ hasId (Some 2%Z)
       (mkRule 2 (js "https://a.com") (js "https://b.com") true) = true
  /\ readRules (popupFinal (Popup.toggleRule (Some 2%Z) false popupHost))
     = Delivered
         (Some [mkRule 1 (js "*") (js "https://x.com") false;
                mkRule 2 (js "https://a.com") (js "https://b.com") false]).
Proof.
  do 4 (split; [reflexivity |]).
  apply (proj1 (toggleRule_sets_first_rule_only (Some 2%Z) false popupHost
                  (Some scenarioC)
                  [mkRule 1 (js "*") (js "https://x.com") false]
                  (mkRule 2 (js "https://a.com") (js "https://b.com") true)
                  [] eq_refl eq_refl eq_refl eq_refl)).
Defined.

Lemma toggleRule_unknown_id_does_nothing_witness :
  readRules popupHost = Delivered (Some scenarioC)
  /\ existsb (hasId None) scenarioC = false
  /\ popupFinal (Popup.toggleRule None true popupHost) = popupHost.
Proof.
  do 2 (split; [reflexivity |]).
  apply (f_equal popupFinal
           (toggleRule_unknown_id_does_nothing None true popupHost
              (Some scenarioC) eq_refl eq_refl)).
Defined.

Lemma toggleRule_back_restores_witness :
  readRules popupHost
  = Delivered
      (Some ([mkRule 1 (js "*") (js "https://x.com") false]
             ++ mkRule 2 (js "https://a.com") (js "https://b.com") true
             :: []))
  /\ readRules
       (popupFinal
          (Popup.toggleRule (Some 2%Z) true
             (popupFinal (Popup.toggleRule (Some 2%Z) false popupHost))))
     = Delivered (Some scenarioC).
Proof.
  split; [reflexivity |].
  apply (toggleRule_back_restores (Some 2%Z) false popupHost
           [mkRule 1 (js "*") (js "https://x.com") false]
           (mkRule 2 (js "https://a.com") (js "https://b.com") true) []
           eq_refl eq_refl eq_refl).
Defined.

Lemma scenarioC_ids_differ : NoDup (ids scenarioC).
Proof.
  constructor; [intros [E | []]; discriminate E |].
  constructor; [intros [] | constructor].
Defined.

Lemma disabling_like_deleting_witness :
  readRules popupHost = Delivered (Some scenarioC)
  /\ NoDup (ids scenarioC) /\ frameId popupEvent = 0%Z
  /\ redirects
       (trace (onBeforeNavigate latin1UpperCase popupEvent
                 (popupFinal (Popup.toggleRule (Some 2%Z) false popupHost))))
     = redirects
         (trace (onBeforeNavigate latin1UpperCase popupEvent
                   (popupFinal (Popup.deleteRule (Some 2%Z) popupHost)))).
Proof.
  split; [reflexivity |]. split; [exact scenarioC_ids_differ |].
  split; [reflexivity |].
  apply (disabling_like_deleting latin1UpperCase 2%Z popupHost
           (Some scenarioC) popupEvent eq_refl scenarioC_ids_differ eq_refl).
Defined.

Lemma clock_is_fresh : ~ In clock (ids scenarioC).
Proof. intros [E | [E | []]]; discriminate E. Defined.

Lemma addRule_then_deleteRule_restores_witness :
  isEmpty (trim newPattern) = false /\ isEmpty (trim newRedirect) = false
  /\ httpsOnly (trim newRedirect) = true
  /\ readRules popupHost = Delivered (Some scenarioC)
  /\ ~ In clock (ids scenarioC)
  /\ readRules
       (popupFinal
          (Popup.deleteRule (Some clock)
             (popupFinal (Popup.addRule httpsOnly newPattern newRedirect
                            clock popupHost))))
     = Delivered (Some scenarioC).
Proof.
  do 4 (split; [reflexivity |]). split; [exact clock_is_fresh |].
  apply (addRule_then_deleteRule_restores httpsOnly newPattern newRedirect
           clock popupHost (Some scenarioC)
           eq_refl eq_refl eq_refl eq_refl clock_is_fresh).
Defined.

Lemma popup_keeps_rules_well_formed_witness :
  readRules popupHost = Delivered (Some scenarioC)
  /\ wellFormed httpsOnly scenarioC = true
  /\ exists v',
       readRules
         (popupFinal (Popup.addRule httpsOnly newPattern newRedirect clock
                        popupHost))
       = Delivered v'
       /\ wellFormed httpsOnly (orElse v' []) = true.
Proof.
  do 2 (split; [reflexivity |]).
  apply (proj1 (popup_keeps_rules_well_formed httpsOnly popupHost
                  (Some scenarioC) eq_refl eq_refl)
           newPattern newRedirect clock).
Defined.

Lemma ids_stay_unique_witness :
  readRules popupHost = Delivered (Some scenarioC)
  /\ NoDup (ids scenarioC)
  /\ (NoDup (ids (scenarioC
                  ++ [mkRule clock (trim newPattern) (trim newRedirect)
                        true]))
      <-> ~ In clock (ids scenarioC)).
Proof.
  split; [reflexivity |]. split; [exact scenarioC_ids_differ |].
  apply (proj2 (proj2 (ids_stay_unique httpsOnly popupHost (Some scenarioC)
                         eq_refl scenarioC_ids_differ))
           newPattern newRedirect clock
           (Some (scenarioC
                  ++ [mkRule clock (trim newPattern) (trim newRedirect)
                        true]))
           eq_refl eq_refl eq_refl eq_refl).
Defined.

Lemma toggleStorageType_switches_area_witness :
  status (localArea popupHost) = Healthy
  /\ currentStorage (popupFinal (Popup.toggleStorageType false popupHost))
     = local
  /\ rulesIn sync (popupFinal (Popup.toggleStorageType false popupHost))
     = Some scenarioC.
Proof.
  split; [reflexivity |].
  destruct (toggleStorageType_switches_area false popupHost eq_refl)
    as [H1 [H2 _]].
  exact (conj H1 (H2 sync)).
Defined.

Lemma displayRules_lists_evaluated_rules_witness :
  In (RulesListed scenarioC) (popupTrace (Popup.displayRules popupHost))
  /\ frameId popupEvent = 0%Z
  /\ redirects (trace (onBeforeNavigate latin1UpperCase popupEvent popupHost))
     = [(7%Z, js "https://b.com")].
Proof.
  split; [right; right; left; reflexivity |]. split; [reflexivity |].
  apply (proj2 (proj2 (displayRules_lists_evaluated_rules latin1UpperCase
                         popupHost))
           scenarioC popupEvent);
    [right; right; left; reflexivity | reflexivity].
Defined.

Lemma switch_state_persists_witness :
  status (localArea popupHost) = Healthy
  /\ exists rest,
       popupTrace
         (Popup.initStorageSettings
            (popupFinal (Popup.toggleStorageType false popupHost)))
       = Chrome (StorageGet local useSyncKey)
         :: ToggleChecked false :: LabelUpdated false :: rest.
Proof.
  split; [reflexivity |].
  apply (switch_state_persists false popupHost eq_refl).
Defined.

Lemma addRule_stores_trimmed_text_witness :
  isEmpty (trim newPattern) = false /\ isEmpty (trim newRedirect) = false
  /\ httpsOnly (trim newRedirect) = true
  /\ readRules popupHost = Delivered (Some scenarioC)
  /\ exists rule,
       readRules
         (popupFinal (Popup.addRule httpsOnly newPattern newRedirect clock
                        popupHost))
       = Delivered (Some (scenarioC ++ [rule]))
       /\ id rule = clock /\ enabled rule = true.
Proof.
  do 4 (split; [reflexivity |]).
  destruct (addRule_stores_trimmed_text httpsOnly newPattern newRedirect
              clock popupHost (Some scenarioC)
              eq_refl eq_refl eq_refl eq_refl)
    as [rule [H1 [H2 [H3 _]]]].
  exists rule. exact (conj H1 (conj H2 H3)).
Defined.

Lemma edits_need_a_read_witness :
  readRules failingHost = Undelivered
  /\ popupFinal (Popup.deleteRule (Some 1%Z) failingHost) = failingHost
  /\ popupFinal (Popup.addRule httpsOnly newPattern newRedirect clock
                   failingHost)
     = failingHost.
Proof.
  split; [reflexivity |].
  destruct (edits_need_a_read httpsOnly failingHost eq_refl)
    as [Hadd [Hdel _]].
  exact (conj (proj1 (Hdel (Some 1%Z)))
              (proj1 (Hadd newPattern newRedirect clock))).
Defined.
